(** * jschon: validation keywords and the schema catalogue

    A shallow embedding of [jschon/vocabulary/validation.py] and
    [jschon/catalogue/__init__.py], and the properties of the keyword
    evaluators and of the catalogue's schema cache.

    Python objects that are mutated in place (scopes, the catalogue's
    dictionaries) are threaded explicitly; dictionaries are [gmap]s;
    exceptions are the [Raise] branch of [result]. *)

From Stdlib Require Import ZArith QArith Qabs Qpower List String Ascii Lia.
From stdpp Require Import base option gmap strings list fin_maps.

Set Warnings "-register-all".
Open Scope Z_scope.

(** ** Outcomes of Python calls *)

Inductive exn : Type :=
  | CatalogueError (msg : string)
  | JSONPointerError
  | URIError
  | InvalidOperation        (* decimal.InvalidOperation *)
  | Overflow                (* decimal.Overflow *)
  | ZeroDivisionError
  | ValueError
  | FileNotFoundError
  | OtherError (name : string).

Inductive result (A : Type) : Type :=
  | Ok (a : A)
  | Raise (e : exn).
Arguments Ok {A} a.
Arguments Raise {A} e.

Definition bind {A B : Type} (r : result A) (k : A -> result B) : result B :=
  match r with
  | Ok a => k a
  | Raise e => Raise e
  end.

Notation "'do' x <- r ; k" := (bind r (fun x => k))
  (at level 10, x name, r at level 100, k at level 200).

(** ** Numbers

    A JSON number is held either as a Python [int] or as a finite
    [decimal.Decimal] (the loader parses non-integral literals as decimals;
    NaN and the infinities are not JSON numbers and are left out).  The sign
    of a decimal is folded into its coefficient. *)

Module Numbers.

Record Decimal : Type := mkDecimal { coeff : Z; exp : Z }.

Inductive Number : Type :=
  | Int (n : Z)
  | Dec (d : Decimal).

(** [Decimal(n)] for a Python int [n]: exact. *)
Definition of_int (n : Z) : Decimal := {| coeff := n; exp := 0 |}.

Definition as_decimal (x : Number) : Decimal :=
  match x with
  | Int n => of_int n
  | Dec d => d
  end.

(** The coefficient of [d] once its exponent is lowered to [e <= exp d]
    (what [Decimal._rescale] pads with zeros). *)
Definition scaled (d : Decimal) (e : Z) : Z := coeff d * 10 ^ (exp d - e).

(** Comparison of two numbers, exact: ints among themselves, otherwise as
    decimals brought to a common exponent. *)
Definition dec_compare (a b : Decimal) : comparison :=
  let e := Z.min (exp a) (exp b) in
  Z.compare (scaled a e) (scaled b e).

Definition compare (x y : Number) : comparison :=
  match x, y with
  | Int a, Int b => Z.compare a b
  | _, _ => dec_compare (as_decimal x) (as_decimal y)
  end.

Definition eqb (x y : Number) : bool :=
  match compare x y with Eq => true | _ => false end.
Definition ltb (x y : Number) : bool :=
  match compare x y with Lt => true | _ => false end.
Definition leb (x y : Number) : bool :=
  match compare x y with Gt => false | _ => true end.
Definition gtb (x y : Number) : bool := ltb y x.
Definition geb (x y : Number) : bool := leb y x.

(** [int(x)]: the identity on ints, truncation towards zero on decimals. *)
Definition py_int (x : Number) : Z :=
  match x with
  | Int n => n
  | Dec d =>
      if 0 <=? exp d then coeff d * 10 ^ exp d
      else Z.quot (coeff d) (10 ^ (- exp d))
  end.

(** The mathematical value, used to state what the operations compute. *)
Definition dec_value (d : Decimal) : Q :=
  (inject_Z (coeff d) * Qpower (inject_Z 10) (exp d))%Q.

Definition num_value (x : Number) : Q :=
  match x with
  | Int n => inject_Z n
  | Dec d => dec_value d
  end.

(** *** [decimal] arithmetic context (the defaults of [decimal.getcontext()]) *)

Definition prec : Z := 28.
Definition Emax : Z := 999999.
Definition Emin : Z := -999999.
Definition Etiny : Z := Emin - prec + 1.
Definition Etop : Z := Emax - prec + 1.

(** Number of decimal digits of [|c|]; the coefficient [0] is the one
    digit ['0']. *)
Fixpoint ndigits_aux (fuel : nat) (n : Z) : Z :=
  match fuel with
  | O => 1
  | S f => if n <? 10 then 1 else 1 + ndigits_aux f (n / 10)
  end.

Definition ndigits (c : Z) : Z :=
  ndigits_aux (Z.to_nat (Z.log2_up (Z.abs c))) (Z.abs c).

(** [Decimal.adjusted()]: the exponent of the most significant digit. *)
Definition adjusted (d : Decimal) : Z := exp d + ndigits (coeff d) - 1.

(** Rounding of a non-negative coefficient [c] when its last [shift]
    digits are dropped, ROUND_HALF_EVEN. *)
Definition round_half_even (c shift : Z) : Z :=
  let p := 10 ^ shift in
  let q := c / p in
  let r := c mod p in
  if (p <? 2 * r) || ((2 * r =? p) && Z.odd q) then q + 1 else q.

(** [Decimal._fix(context)] on a finite decimal, with [clamp = 0]:
    the result is rounded to [prec] digits and its exponent kept above
    [Etiny]; [Overflow] is trapped, the underflow signals are not. *)
Definition _fix (d : Decimal) : result Decimal :=
  if coeff d =? 0 then
    Ok {| coeff := 0; exp := Z.min (Z.max (exp d) Etiny) Emax |}
  else
    let exp_min := ndigits (coeff d) + exp d - prec in
    if Etop <? exp_min then Raise Overflow
    else
      let exp_min := Z.max exp_min Etiny in
      if exp d <? exp_min then
        let c := round_half_even (Z.abs (coeff d)) (exp_min - exp d) in
        let '(c, exp_min) :=
          if 10 ^ prec <=? c then (c / 10, exp_min + 1) else (c, exp_min) in
        if Etop <? exp_min then Raise Overflow
        else Ok {| coeff := Z.sgn (coeff d) * c; exp := exp_min |}
      else Ok d.

(** The remainder component of [Decimal._divide]: the integer quotient
    has to fit in [prec] digits, otherwise the operation is impossible. *)
Definition _divide_rem (a b : Decimal) : result Decimal :=
  let ideal_exp := Z.min (exp a) (exp b) in
  let expdiff := adjusted a - adjusted b in
  if (coeff a =? 0) || (expdiff <=? -2) then
    Ok {| coeff := scaled a ideal_exp; exp := ideal_exp |}
  else if expdiff <=? prec then
    let op1 := Z.abs (scaled a ideal_exp) in
    let op2 := Z.abs (scaled b ideal_exp) in
    let q := op1 / op2 in
    let r := op1 mod op2 in
    if q <? 10 ^ prec then
      Ok {| coeff := Z.sgn (coeff a) * r; exp := ideal_exp |}
    else Raise InvalidOperation
  else Raise InvalidOperation.

(** [Decimal.__mod__]. *)
Definition dec_mod (a b : Decimal) : result Decimal :=
  if coeff b =? 0 then Raise InvalidOperation
  else do r <- _divide_rem a b; _fix r.

(** Python's [x % y]: floor remainder on two ints; as soon as one operand
    is a [Decimal] the other is converted and [Decimal.__mod__] runs. *)
Definition py_mod (x y : Number) : result Number :=
  match x, y with
  | Int a, Int b =>
      if b =? 0 then Raise ZeroDivisionError else Ok (Int (a mod b))
  | _, _ => do r <- dec_mod (as_decimal x) (as_decimal y); Ok (Dec r)
  end.

Definition is_zero (x : Number) : bool := eqb x (Int 0).

(** [x] is an integer multiple of [m]. *)
Definition multiple_of (x m : Number) : Prop :=
  exists k : Z, (num_value x == inject_Z k * num_value m)%Q.

(** [x] is an integer multiple of [m] and the quotient has at most [prec]
    digits. *)
Definition small_multiple_of (x m : Number) : Prop :=
  exists k : Z, Z.abs k < 10 ^ prec /\ (num_value x == inject_Z k * num_value m)%Q.

(** The decimals on which [_fix] neither overflows nor underflows. *)
Definition in_context_range (d : Decimal) : Prop :=
  Etiny <= exp d /\ adjusted d < Emax.

Definition both_int (x m : Number) : bool :=
  match x, m with
  | Int _, Int _ => true
  | _, _ => false
  end.

End Numbers.

Import Numbers.

(** ** JSON values and instances *)

Module Json.

Inductive JSONValue : Type :=
  | VNull
  | VBool (b : bool)
  | VNum (n : Number)
  | VStr (s : string)
  | VArr (items : list JSONValue)
  | VObj (props : list (string * JSONValue)).

Definition JSONPointer : Type := list string.

Fixpoint assoc {A : Type} (k : string) (ps : list (string * A)) : option A :=
  match ps with
  | [] => None
  | (k', v) :: ps' => if String.eqb k k' then Some v else assoc k ps'
  end.

(** Modelled from the spec: [JSON.__eq__] of [jschon/json.py], which is
    not among the sources.  "Deep equality": values of different JSON
    types differ, numbers compare by numeric value whatever their
    representation ([1 == 1.0]), arrays compare element by element, objects
    compare as dictionaries (same keys, equal values, order irrelevant). *)
Fixpoint json_eq (a b : JSONValue) : bool :=
  match a, b with
  | VNull, VNull => true
  | VBool x, VBool y => Bool.eqb x y
  | VNum x, VNum y => Numbers.eqb x y
  | VStr x, VStr y => String.eqb x y
  | VArr xs, VArr ys =>
      (fix all2 (xs ys : list JSONValue) : bool :=
         match xs, ys with
         | [], [] => true
         | x :: xs', y :: ys' => json_eq x y && all2 xs' ys'
         | _, _ => false
         end) xs ys
  | VObj ps, VObj qs =>
      Nat.eqb (length ps) (length qs) &&
      (fix all (ps : list (string * JSONValue)) : bool :=
         match ps with
         | [] => true
         | (k, v) :: ps' =>
             match assoc k qs with
             | Some w => json_eq v w
             | None => false
             end && all ps'
         end) ps
  | _, _ => false
  end.

(** Modelled from the spec: the [JSON] node class of [jschon/json.py].
    A node has its value, the pointer that leads to it from the document
    root, and a type hint: a numeric node may be declared ["integer"]. *)
Record JSON : Type := mkJSON {
  value : JSONValue;
  path : JSONPointer;
  integer_hint : bool
}.

(** [instance.type] *)
Definition type (j : JSON) : string :=
  match value j with
  | VNull => "null"
  | VBool _ => "boolean"
  | VNum _ => if integer_hint j then "integer" else "number"
  | VStr _ => "string"
  | VArr _ => "array"
  | VObj _ => "object"
  end.

(** A keyword's own value [self.json], at the document root. *)
Definition json_of (v : JSONValue) : JSON :=
  {| value := v; path := []; integer_hint := false |}.

(** [x in xs] for a Python list of JSON nodes: some element equals [x]. *)
Definition py_in (x : JSONValue) (xs : list JSONValue) : bool :=
  existsb (fun e => json_eq e x) xs.

(** Modelled from the spec: [tuplify] of [jschon/utils.py]: a list value
    gives its elements, any other value the one-element tuple. *)
Definition tuplify (v : JSONValue) : list JSONValue :=
  match v with
  | VArr items => items
  | _ => [v]
  end.

End Json.

Import Json.

(** ** Scopes *)

Module Scopes.

(** An error message: the text of the f-string (inner double quotes
    written as single quotes) and the JSON values interpolated into it. *)
Record Message : Type := Msg { template : string; args : list JSONValue }.

Record Error : Type := mkError {
  instance_location : JSONPointer;
  message : Message
}.

Record Annotation : Type := mkAnnotation { ann_value : Number }.

(** Modelled from the spec: the [Scope] class of [jschon/jsonschema.py],
    which is not among the sources.  The fields are the ones the keywords
    of [validation.py] read and write: the annotations by key and the
    ordered list of errors. *)
Record Scope : Type := mkScope {
  annotations : gmap string Annotation;
  errors : list Error
}.

Definition new_scope : Scope := {| annotations := ∅; errors := [] |}.

(** Modelled from the spec: [Scope.fail(instance, message)] appends an
    error, which flips the scope's validity. *)
Definition fail (instance : JSON) (msg : Message) (scope : Scope) : Scope :=
  {| annotations := annotations scope;
     errors := errors scope ++ [mkError (path instance) msg] |}.

(** Modelled from the spec: [Scope.valid].  "A Scope's validity equals
    no error in it", so that clearing the errors of a scope makes it
    valid again. *)
Definition valid (scope : Scope) : bool :=
  match errors scope with
  | [] => true
  | _ :: _ => false
  end.

(** [scope.errors.clear()] *)
Definition clear_errors (scope : Scope) : Scope :=
  {| annotations := annotations scope; errors := [] |}.

(** The scope a keyword is evaluated in, together with the other children
    of its parent scope, by keyword name.  A keyword reaches a sibling
    object through the parent, and mutates it in place: the siblings are
    part of the state. *)
Record Frame : Type := mkFrame {
  scope : Scope;
  siblings : gmap string Scope
}.

(** Modelled from the spec: [Scope.sibling(key)], the child of the parent
    scope created for keyword [key], or [None]. *)
Definition sibling (key : string) (fr : Frame) : option Scope :=
  siblings fr !! key.

Definition fail_frame (instance : JSON) (msg : Message) (fr : Frame) : Frame :=
  {| scope := fail instance msg (scope fr); siblings := siblings fr |}.

(** Modelled from the spec: validity of the parent scope of a frame, "the
    conjunction of children's validity". *)
Definition frame_valid (fr : Frame) : bool :=
  valid (scope fr) && bool_decide (map_Forall (fun _ s => valid s = true) (siblings fr)).

End Scopes.

Import Scopes.

(** ** The validation vocabulary ([jschon/vocabulary/validation.py]) *)

Module validation.

(** Truth value of a Python object held as a keyword value. *)
Definition truthy (v : JSONValue) : bool :=
  match v with
  | VNull => false
  | VBool b => b
  | VNum n => negb (Numbers.is_zero n)
  | VStr s => negb (String.eqb s EmptyString)
  | VArr items => negb (Nat.eqb (length items) 0)
  | VObj props => negb (Nat.eqb (length props) 0)
  end.

Module TypeKeyword.
Definition __keyword__ : string := "type".

Definition is_valid (self_json : JSONValue) (instance : JSON) : bool :=
  let types := tuplify self_json in
  if py_in (VStr (type instance)) types then true
  else if String.eqb (type instance) "number" && py_in (VStr "integer") types then
    match value instance with
    | VNum x => Numbers.eqb x (Int (py_int x))
    | _ => false
    end
  else false.

Definition evaluate (self_json : JSONValue) (instance : JSON) (scope : Scope) : Scope :=
  if negb (is_valid self_json instance) then
    fail instance (Msg "The instance must be of type {self.json}" [self_json]) scope
  else scope.
End TypeKeyword.

Module MultipleOfKeyword.
Definition __keyword__ : string := "multipleOf".

(** [instance % self.json]: both are numbers, the instance by
    [__types__], the keyword value by [__schema__]. *)
Definition json_mod (instance : JSON) (self_json : JSONValue) : result Number :=
  match value instance, self_json with
  | VNum x, VNum m => py_mod x m
  | _, _ => Raise (OtherError "TypeError")
  end.

Definition evaluate (self_json : JSONValue) (instance : JSON) (scope : Scope)
  : result Scope :=
  match json_mod instance self_json with
  | Ok r =>
      if negb (Numbers.is_zero r) then
        Ok (fail instance
              (Msg "The value must be a multiple of {self.json}" [self_json]) scope)
      else Ok scope
  | Raise InvalidOperation =>
      Ok (fail instance
            (Msg "Invalid operation: {instance} % {self.json}"
                 [value instance; self_json]) scope)
  | Raise e => Raise e
  end.
End MultipleOfKeyword.

Module UniqueItemsKeyword.
Definition __keyword__ : string := "uniqueItems".

(** The body of the loop that builds [uniquified]. *)
Definition uniquify_step (uniquified : list JSONValue) (item : JSONValue)
  : list JSONValue :=
  if negb (py_in item uniquified) then uniquified ++ [item] else uniquified.

Definition uniquify (items : list JSONValue) : list JSONValue :=
  fold_left uniquify_step items [].

Definition evaluate (self_json : JSONValue) (instance : JSON) (scope : Scope) : Scope :=
  if negb (truthy self_json) then scope
  else
    match value instance with
    | VArr items =>
        let uniquified := uniquify items in
        if (length uniquified <? length items)%nat then
          fail instance (Msg "The array's elements must all be unique" []) scope
        else scope
    | _ => scope
    end.
End UniqueItemsKeyword.

Module MaxContainsKeyword.
Definition __keyword__ : string := "maxContains".

Definition evaluate (limit : Number) (instance : JSON) (fr : Frame) : Frame :=
  match sibling "contains" fr with
  | Some contains =>
      match annotations contains !! "contains" with
      | Some contains_annotation =>
          if Numbers.gtb (ann_value contains_annotation) limit then
            fail_frame instance
              (Msg "The array has too many elements matching the 'contains' subschema (maximum {self.json})"
                   [VNum limit]) fr
          else fr
      | None => fr
      end
  | None => fr
  end.
End MaxContainsKeyword.

Module MinContainsKeyword.
Definition __keyword__ : string := "minContains".

Definition contains_count (contains : Scope) : Number :=
  match annotations contains !! "contains" with
  | Some contains_annotation => ann_value contains_annotation
  | None => Int 0
  end.

Definition evaluate (limit : Number) (instance : JSON) (fr : Frame) : Frame :=
  match sibling "contains" fr with
  | Some contains =>
      let valid := Numbers.geb (contains_count contains) limit in
      let fr :=
        if valid && negb (Scopes.valid contains) then
          match sibling "maxContains" fr with
          | Some max_contains =>
              if Scopes.valid max_contains then
                {| scope := scope fr;
                   siblings := <["contains" := clear_errors contains]> (siblings fr) |}
              else fr
          | None =>
              {| scope := scope fr;
                 siblings := <["contains" := clear_errors contains]> (siblings fr) |}
          end
        else fr in
      if negb valid then
        fail_frame instance
          (Msg "The array has too few elements matching the 'contains' subschema (minimum {self.json})"
               [VNum limit]) fr
      else fr
  | None => fr
  end.
End MinContainsKeyword.

Module EnumKeyword.
Definition __keyword__ : string := "enum".

(** [instance not in self.json]: the keyword value is an array. *)
Definition evaluate (self_json : JSONValue) (instance : JSON) (scope : Scope) : Scope :=
  match self_json with
  | VArr items =>
      if negb (py_in (value instance) items) then
        fail instance (Msg "The value must be one of {self.json}" [self_json]) scope
      else scope
  | _ => scope
  end.
End EnumKeyword.

Module ConstKeyword.
Definition __keyword__ : string := "const".

Definition evaluate (self_json : JSONValue) (instance : JSON) (scope : Scope) : Scope :=
  if negb (json_eq (value instance) self_json) then
    fail instance (Msg "The value must be equal to {self.json}" [self_json]) scope
  else scope.
End ConstKeyword.

(** The four bound keywords act on numbers ([__types__ = "number"]); their
    value is a number by [__schema__]. *)
Module MaximumKeyword.
Definition __keyword__ : string := "maximum".

Definition evaluate (limit : Number) (instance : JSON) (scope : Scope) : Scope :=
  match value instance with
  | VNum x =>
      if Numbers.gtb x limit then
        fail instance
             (Msg "The value may not be greater than {self.json}" [VNum limit]) scope
      else scope
  | _ => scope
  end.
End MaximumKeyword.

Module ExclusiveMaximumKeyword.
Definition __keyword__ : string := "exclusiveMaximum".

Definition evaluate (limit : Number) (instance : JSON) (scope : Scope) : Scope :=
  match value instance with
  | VNum x =>
      if Numbers.geb x limit then
        fail instance (Msg "The value must be less than {self.json}" [VNum limit]) scope
      else scope
  | _ => scope
  end.
End ExclusiveMaximumKeyword.

Module MinimumKeyword.
Definition __keyword__ : string := "minimum".

Definition evaluate (limit : Number) (instance : JSON) (scope : Scope) : Scope :=
  match value instance with
  | VNum x =>
      if Numbers.ltb x limit then
        fail instance
             (Msg "The value may not be less than {self.json}" [VNum limit]) scope
      else scope
  | _ => scope
  end.
End MinimumKeyword.

Module ExclusiveMinimumKeyword.
Definition __keyword__ : string := "exclusiveMinimum".

Definition evaluate (limit : Number) (instance : JSON) (scope : Scope) : Scope :=
  match value instance with
  | VNum x =>
      if Numbers.leb x limit then
        fail instance
             (Msg "The value must be greater than {self.json}" [VNum limit]) scope
      else scope
  | _ => scope
  end.
End ExclusiveMinimumKeyword.

(** [len(instance)] of an array or an object, as a Python int. *)
Definition py_len (v : JSONValue) : Number :=
  match v with
  | VArr items => Int (Z.of_nat (length items))
  | VObj props => Int (Z.of_nat (length props))
  | _ => Int 0
  end.

Module MaxItemsKeyword.
Definition __keyword__ : string := "maxItems".

Definition evaluate (limit : Number) (instance : JSON) (scope : Scope) : Scope :=
  if Numbers.gtb (py_len (value instance)) limit then
    fail instance
         (Msg "The array has too many elements (maximum {self.json})" [VNum limit]) scope
  else scope.
End MaxItemsKeyword.

Module MinItemsKeyword.
Definition __keyword__ : string := "minItems".

Definition evaluate (limit : Number) (instance : JSON) (scope : Scope) : Scope :=
  if Numbers.ltb (py_len (value instance)) limit then
    fail instance
         (Msg "The array has too few elements (minimum {self.json})" [VNum limit]) scope
  else scope.
End MinItemsKeyword.

Module MaxPropertiesKeyword.
Definition __keyword__ : string := "maxProperties".

Definition evaluate (limit : Number) (instance : JSON) (scope : Scope) : Scope :=
  if Numbers.gtb (py_len (value instance)) limit then
    fail instance
         (Msg "The object has too many properties (maximum {self.json})" [VNum limit])
         scope
  else scope.
End MaxPropertiesKeyword.

Module MinPropertiesKeyword.
Definition __keyword__ : string := "minProperties".

Definition evaluate (limit : Number) (instance : JSON) (scope : Scope) : Scope :=
  if Numbers.ltb (py_len (value instance)) limit then
    fail instance
         (Msg "The object has too few properties (minimum {self.json})" [VNum limit])
         scope
  else scope.
End MinPropertiesKeyword.

(** [name in instance] for an object instance: [name] is one of its keys. *)
Definition has_key (name : string) (props : list (string * JSONValue)) : bool :=
  match assoc name props with
  | Some _ => true
  | None => false
  end.

Module RequiredKeyword.
Definition __keyword__ : string := "required".

(** [[name for name in self.json if name.value not in instance]] *)
Definition missing (names : list string) (props : list (string * JSONValue))
  : list string :=
  List.filter (fun name => negb (has_key name props)) names.

Definition evaluate (names : list string) (instance : JSON) (scope : Scope) : Scope :=
  match value instance with
  | VObj props =>
      match missing names props with
      | [] => scope
      | (_ :: _) as missing =>
          fail instance
               (Msg "The object is missing required properties {missing}"
                    [VArr (List.map VStr missing)]) scope
      end
  | _ => scope
  end.
End RequiredKeyword.

Module DependentRequiredKeyword.
Definition __keyword__ : string := "dependentRequired".

(** The dictionary [missing] filled by the loop over [self.json.items()],
    whose keys are distinct. *)
Fixpoint missing (deps : list (string * list string))
         (props : list (string * JSONValue)) : list (string * list string) :=
  match deps with
  | [] => []
  | (name, dependents) :: deps' =>
      if has_key name props then
        match List.filter (fun dep => negb (has_key dep props)) dependents with
        | [] => missing deps' props
        | (_ :: _) as missing_deps => (name, missing_deps) :: missing deps' props
        end
      else missing deps' props
  end.

Definition evaluate (deps : list (string * list string)) (instance : JSON)
           (scope : Scope) : Scope :=
  match value instance with
  | VObj props =>
      match missing deps props with
      | [] => scope
      | (_ :: _) as missing =>
          fail instance
               (Msg "The object is missing dependent properties {missing}"
                    [VObj (List.map (fun nd => (nd.1, VArr (List.map VStr nd.2))) missing)])
               scope
      end
  | _ => scope
  end.
End DependentRequiredKeyword.

(** [maxContains] and then [minContains] (which declares that it depends
    on ["contains"] and ["maxContains"]), each in a new scope beside the
    scope of [contains]: the frame of [minContains] at the end. *)
Definition evaluate_contains_bounds
           (min_limit max_limit : Number) (instance : JSON) (contains : Scope) : Frame :=
  let max_frame :=
    MaxContainsKeyword.evaluate max_limit instance
      {| scope := new_scope; siblings := {["contains" := contains]} |} in
  MinContainsKeyword.evaluate min_limit instance
    {| scope := new_scope;
       siblings := <["maxContains" := scope max_frame]> (siblings max_frame) |}.

(** Some two distinct positions of [items] hold equal elements. *)
Definition has_equal_pair (items : list JSONValue) : Prop :=
  exists (i j : nat) (x y : JSONValue),
    (i < j)%nat /\ items !! i = Some x /\ items !! j = Some y /\ json_eq x y = true.

End validation.

(** ** The catalogue ([jschon/catalogue/__init__.py]) *)

Module catalogue.

(** *** URIs, sessions, paths, compiled documents *)

(** Modelled from the spec: the [URI] class of [jschon/uri.py]: the text
    of the URI up to the fragment, the fragment if there is one, and the
    answers to the validation queries [has_scheme] and [is_normalized]. *)
Record URI : Type := mkURI {
  base : string;
  fragment : option string;
  has_scheme : bool;
  is_normalized : bool
}.

#[global] Instance URI_eq_dec : EqDecision URI.
Proof. solve_decision. Defined.

#[global] Instance URI_countable : Countable URI.
Proof.
  refine (inj_countable'
            (fun u => (base u, fragment u, has_scheme u, is_normalized u))
            (fun t => match t with (b, f, s, n) => mkURI b f s n end) _).
  intros []; reflexivity.
Defined.

(** [str(uri)] *)
Definition str (uri : URI) : string :=
  match fragment uri with
  | Some f => base uri +:+ "#" +:+ f
  | None => base uri
  end.

(** [uri.copy(fragment=False)] *)
Definition copy_no_fragment (uri : URI) : URI :=
  {| base := base uri; fragment := None;
     has_scheme := has_scheme uri; is_normalized := is_normalized uri |}.

(** [uri.validate(require_scheme=True, require_normalized=True,
    allow_fragment=False)]: [false] stands for the [URIError]. *)
Definition validate (uri : URI) : bool :=
  has_scheme uri && is_normalized uri &&
  match fragment uri with None => true | Some _ => false end.

(** A session identifier: a name given by the caller, or a UUID. *)
Inductive Session : Type :=
  | Name (s : string)
  | UUID (n : N).

#[global] Instance Session_eq_dec : EqDecision Session.
Proof. solve_decision. Defined.

#[global] Instance Session_countable : Countable Session.
Proof.
  refine (inj_countable'
            (fun s => match s with Name x => inl x | UUID n => inr n end)
            (fun t => match t with inl x => Name x | inr n => UUID n end) _).
  intros []; reflexivity.
Defined.

Definition default : Session := Name "default".
Definition __meta__ : Session := Name "__meta__".

(** A [pathlib] path: whether it is rooted, and its components. *)
Record Path : Type := mkPath { rooted : bool; parts : list string }.

#[global] Instance Path_eq_dec : EqDecision Path.
Proof. solve_decision. Defined.

(** Splitting at a separator character. *)
Fixpoint split_on (sep : ascii) (s : string) : list string :=
  match s with
  | EmptyString => [EmptyString]
  | String c s' =>
      if Ascii.eqb c sep then EmptyString :: split_on sep s'
      else match split_on sep s' with
           | [] => [String c EmptyString]
           | p :: ps => String c p :: ps
           end
  end.

(** The components of a path text: empty components and ["."] vanish. *)
Definition components (s : string) : list string :=
  filter (fun p => p <> EmptyString /\ p <> ".") (split_on "/" s).

Definition starts_with_slash (s : string) : bool :=
  match s with
  | String c _ => Ascii.eqb c "/"
  | EmptyString => false
  end.

(** [path / text]: a rooted right operand replaces the left one. *)
Definition joinpath (p : Path) (s : string) : Path :=
  if starts_with_slash s then {| rooted := true; parts := components s |}
  else {| rooted := rooted p; parts := parts p ++ components s |}.

Fixpoint rfind_dot (s : string) : option nat :=
  match s with
  | EmptyString => None
  | String c s' =>
      match rfind_dot s' with
      | Some i => Some (S i)
      | None => if Ascii.eqb c "." then Some O else None
      end
  end.

(** [PurePath.suffix] cuts the name at its last dot, unless that dot is
    the first or the last character; the name without it. *)
Definition stem (name : string) : string :=
  match rfind_dot name with
  | Some i =>
      if (0 <? i)%nat && (i <? String.length name - 1)%nat
      then substring 0 i name else name
  | None => name
  end.

(** [path.with_suffix(suffix)]: the suffix of the last component is
    replaced, or [suffix] is added if it has none; a path with no name
    raises [ValueError]. *)
Definition with_suffix (suffix : string) (p : Path) : result Path :=
  match rev (parts p) with
  | [] => Raise ValueError
  | name :: rest =>
      Ok {| rooted := rooted p; parts := rev rest ++ [stem name +:+ suffix] |}
  end.

(** Modelled from the spec: a compiled schema document.  Some of its
    nodes are [JSONSchema] objects (boolean schemas and object schemas, the
    latter with their anchor table), the others are plain JSON nodes, for
    instance the object under ["properties"]. *)
Inductive Doc : Type :=
  | Leaf (v : JSONValue)
  | Items (items : list Doc)
  | Members (members : list (string * Doc))
  | BoolSchema (b : bool)
  | ObjSchema (anchors : list (string * Doc)) (keywords : list (string * Doc)).

(** [isinstance(node, JSONSchema)] *)
Definition is_JSONSchema (d : Doc) : bool :=
  match d with
  | BoolSchema _ | ObjSchema _ _ => true
  | _ => false
  end.

(** *** JSON pointers *)

Definition hex_digit (c : ascii) : option nat :=
  let n := nat_of_ascii c in
  if (48 <=? n)%nat && (n <=? 57)%nat then Some (n - 48)%nat
  else if (65 <=? n)%nat && (n <=? 70)%nat then Some (n - 55)%nat
  else if (97 <=? n)%nat && (n <=? 102)%nat then Some (n - 87)%nat
  else None.

(** [urllib.parse.unquote]: [%XX] becomes the byte [XX]; anything else
    stays. *)
Fixpoint unquote (s : string) : string :=
  match s with
  | EmptyString => EmptyString
  | String c s' =>
      if Ascii.eqb c "%" then
        match s' with
        | String h (String l rest) =>
            match hex_digit h, hex_digit l with
            | Some a, Some b => String (ascii_of_nat (16 * a + b)) (unquote rest)
            | _, _ => String c (unquote s')
            end
        | _ => String c (unquote s')
        end
      else String c (unquote s')
  end.

(** A reference token: [~1] is [/], [~0] is [~], no other [~]. *)
Fixpoint unescape (t : string) : option string :=
  match t with
  | EmptyString => Some EmptyString
  | String c t' =>
      if Ascii.eqb c "~" then
        match t' with
        | String d rest =>
            if Ascii.eqb d "0" then String "~" <$> unescape rest
            else if Ascii.eqb d "1" then String "/" <$> unescape rest
            else None
        | EmptyString => None
        end
      else String c <$> unescape t'
  end.

(** Modelled from the spec: [JSONPointer.parse_uri_fragment] of
    [jschon/jsonpointer.py].  The fragment is percent-decoded; a JSON
    pointer is empty or a sequence of [/]-prefixed tokens; any other text,
    a plain-name anchor for instance, is not a pointer. *)
Definition parse_uri_fragment (frag : string) : result JSONPointer :=
  let text := unquote frag in
  match text with
  | EmptyString => Ok []
  | String c _ =>
      if Ascii.eqb c "/" then
        match mapM unescape (tail (split_on "/" text)) with
        | Some tokens => Ok tokens
        | None => Raise JSONPointerError
        end
      else Raise JSONPointerError
  end.

Definition digit (c : ascii) : option nat :=
  let n := nat_of_ascii c in
  if (48 <=? n)%nat && (n <=? 57)%nat then Some (n - 48)%nat else None.

Fixpoint parse_digits (s : string) (acc : nat) : option nat :=
  match s with
  | EmptyString => Some acc
  | String c s' =>
      match digit c with
      | Some d => parse_digits s' (10 * acc + d)%nat
      | None => None
      end
  end.

(** An array index token: [0], or digits without a leading zero. *)
Definition parse_index (tok : string) : option nat :=
  match tok with
  | EmptyString => None
  | String c rest =>
      if Ascii.eqb c "0" then
        match rest with EmptyString => Some O | _ => None end
      else parse_digits tok 0
  end.

(** Modelled from the spec: [JSONPointer.evaluate(document)]: "returns
    the descendant or fails".  An object is entered by key, an array by
    index, a scalar not at all; the anchor table of a schema is no part of
    the walk. *)
Fixpoint evaluate (ptr : JSONPointer) (doc : Doc) : result Doc :=
  match ptr with
  | [] => Ok doc
  | tok :: ptr' =>
      match doc with
      | Members ms | ObjSchema _ ms =>
          match assoc tok ms with
          | Some d => evaluate ptr' d
          | None => Raise JSONPointerError
          end
      | Items ds =>
          match parse_index tok with
          | Some i =>
              match nth_error ds i with
              | Some d => evaluate ptr' d
              | None => Raise JSONPointerError
              end
          | None => Raise JSONPointerError
          end
      | Leaf _ | BoolSchema _ => Raise JSONPointerError
      end
  end.

(** *** The catalogue object *)

(** [_directories] is a Python dictionary read in insertion order: an
    association list.  [_schema_cache] is a dictionary of dictionaries. *)
Record Catalogue : Type := mkCatalogue {
  _directories : list (URI * Path);
  _schema_cache : gmap Session (gmap URI Doc)
}.

Definition set_cache (cache : gmap Session (gmap URI Doc)) (cat : Catalogue) : Catalogue :=
  {| _directories := _directories cat; _schema_cache := cache |}.

(** [candidates.sort(key=lambda c: len(c[0]), reverse=True)]: longest
    first, candidates of equal length in their original order. *)
Fixpoint insert_desc (c : string * Path) (cs : list (string * Path))
  : list (string * Path) :=
  match cs with
  | [] => [c]
  | c' :: cs' =>
      if (String.length (fst c') <=? String.length (fst c))%nat then c :: cs
      else c' :: insert_desc c cs'
  end.

Definition sort_desc (cs : list (string * Path)) : list (string * Path) :=
  foldr insert_desc [] cs.

Fixpoint string_drop (n : nat) (s : string) : string :=
  match n, s with
  | O, _ => s
  | S n', String _ s' => string_drop n' s'
  | S _, EmptyString => EmptyString
  end.

Definition candidates (cat : Catalogue) (uristr : string) : list (string * Path) :=
  omap (fun '(base_uri, base_dir) =>
          if String.prefix (str base_uri) uristr
          then Some (str base_uri, base_dir) else None)
       (_directories cat).

Section with_file_system.

(** [json_loadf(path)]: the document in the file, [FileNotFoundError],
    or another error of the file system or of the JSON parser. *)
Variable json_loadf : Path -> result JSONValue.

(** [load_json(uri)], with the list of the paths handed to
    [json_loadf], in order. *)
Definition load_json (cat : Catalogue) (uri : URI)
  : result JSONValue * list Path :=
  if negb (validate uri) then (Raise (CatalogueError "URIError"), [])
  else
    let uristr := str uri in
    match sort_desc (candidates cat uristr) with
    | (base_uristr, base_dir) :: _ =>
        let filepath :=
          joinpath base_dir (string_drop (String.length base_uristr) uristr) in
        match json_loadf filepath with
        | Raise FileNotFoundError =>
            match with_suffix ".json" filepath with
            | Ok filepath' =>
                match json_loadf filepath' with
                | Raise FileNotFoundError =>
                    (Raise (CatalogueError "File not found for '{uri}'"),
                     [filepath; filepath'])
                | r => (r, [filepath; filepath'])
                end
            | Raise e => (Raise e, [filepath])
            end
        | r => (r, [filepath])
        end
    | [] => (Raise (CatalogueError "File not found for '{uri}'"), [])
    end.

(** [add_schema(uri, schema, session=...)] *)
Definition add_schema (uri : URI) (schema : Doc) (session : Session)
           (cat : Catalogue) : Catalogue :=
  let cache :=
    match _schema_cache cat !! session with
    | Some _ => _schema_cache cat
    | None => <[session := ∅]> (_schema_cache cat)
    end in
  set_cache (alter (fun m => <[uri := schema]> m) session cache) cat.

(** [del_schema(uri, session=...)] *)
Definition del_schema (uri : URI) (session : Session) (cat : Catalogue)
  : Catalogue :=
  match _schema_cache cat !! session with
  | Some _ => set_cache (alter (fun m => delete uri m) session (_schema_cache cat)) cat
  | None => cat
  end.

(** The caches [get_schema] reads, in order. *)
Definition try_caches (session : Session) : list Session :=
  if decide (session = __meta__) then [__meta__] else [session; __meta__].

(** [self._schema_cache[cacheid][uri]], [None] for the [KeyError]. *)
Definition cache_get (cat : Catalogue) (cacheid : Session) (uri : URI)
  : option Doc :=
  match _schema_cache cat !! cacheid with
  | Some m => m !! uri
  | None => None
  end.

(** The loop over [try_caches]: the first hit. *)
Fixpoint first_cached (cat : Catalogue) (caches : list Session) (uri : URI)
  : option Doc :=
  match caches with
  | [] => None
  | cacheid :: rest =>
      match cache_get cat cacheid uri with
      | Some schema => Some schema
      | None => first_cached cat rest uri
      end
  end.

(** The constructor [JSONSchema(doc, catalogue=self, session=session,
    uri=base_uri, metaschema_uri=metaschema_uri)] of
    [jschon/jsonschema.py]: it compiles the document, or raises, and
    registers what it compiles in the catalogue. *)
Variable JSONSchema_new :
  JSONValue -> Catalogue -> Session -> URI -> option URI ->
  result Doc * Catalogue.

Definition pointer_error_as_catalogue_error {A : Type} (r : result A) : result A :=
  match r with
  | Raise JSONPointerError => Raise (CatalogueError "Schema not found for {uri}")
  | r => r
  end.

(** The part of [get_schema] that finds the schema of the URI without its
    fragment: in the caches if the URI has a fragment, else (or on a miss)
    by loading and compiling the document. *)
Definition base_schema (uri : URI) (metaschema_uri : option URI)
           (session : Session) (cat : Catalogue) : result Doc * Catalogue :=
  let base_uri := copy_no_fragment uri in
  let schema :=
    match fragment uri with
    | Some _ => first_cached cat (try_caches session) base_uri
    | None => None
    end in
  match schema with
  | Some schema => (Ok schema, cat)
  | None =>
      match fst (load_json cat base_uri) with
      | Ok doc => JSONSchema_new doc cat session base_uri metaschema_uri
      | Raise e => (Raise e, cat)
      end
  end.

(** The end of [get_schema]: a non-empty fragment is parsed as a JSON
    pointer and evaluated on the schema; what is reached has to be a
    [JSONSchema]. *)
Definition descend (uri : URI) (schema : Doc) : result Doc :=
  do schema <-
    match fragment uri with
    | Some (String c f) =>
        pointer_error_as_catalogue_error
          (do ptr <- parse_uri_fragment (String c f); evaluate ptr schema)
    | _ => Ok schema
    end;
  if negb (is_JSONSchema schema) then
    Raise (CatalogueError "The object referenced by {uri} is not a JSON Schema")
  else Ok schema.

(** [get_schema(uri, metaschema_uri=..., session=...)] *)
Definition get_schema (uri : URI) (metaschema_uri : option URI)
           (session : Session) (cat : Catalogue) : result Doc * Catalogue :=
  match first_cached cat (try_caches session) uri with
  | Some schema => (Ok schema, cat)
  | None =>
      let '(schema, cat) := base_schema uri metaschema_uri session cat in
      match schema with
      | Raise e => (Raise e, cat)
      | Ok schema => (descend uri schema, cat)
      end
  end.

End with_file_system.

(** *** Sessions *)

(** The part of [session()] before the [yield]; [uuid4] is what
    [uuid.uuid4()] returns. *)
Definition session_enter (session : option Session) (uuid4 : N)
           (cat : Catalogue) : result Session :=
  let session := match session with None => UUID uuid4 | Some s => s end in
  if decide (is_Some (_schema_cache cat !! session))
  then Raise (CatalogueError "session is already in use")
  else Ok session.

(** The [finally] clause: [self._schema_cache.pop(session, None)]. *)
Definition session_exit (session : Session) (cat : Catalogue) : Catalogue :=
  set_cache (delete session (_schema_cache cat)) cat.

(** [with catalogue.session(session) as s: body]: the body works on the
    catalogue and ends with a value or an exception; either way the
    [finally] clause runs. *)
Definition with_session {A : Type} (session : option Session) (uuid4 : N)
           (body : Session -> Catalogue -> result A * Catalogue)
           (cat : Catalogue) : result A * Catalogue :=
  match session_enter session uuid4 cat with
  | Raise e => (Raise e, cat)
  | Ok s =>
      let '(r, cat') := body s cat in
      (r, session_exit s cat')
  end.

(** *** Registration of directories, vocabularies and format validators *)



Section with_directories.

(** [base_uri.path], the path component of a URI (the [URI] class is not
    among the sources), and [pathlib.Path(base_dir).is_dir()]. *)
Variable uri_path : URI -> string.
Variable is_dir : Path -> bool.


End with_directories.

Section with_registries.

(** The classes [Vocabulary] and [FormatValidator] are not among the
    sources: a vocabulary is what the constructor [Vocabulary(uri,
    *kwclasses)] makes of its arguments, a format validator is any value. *)
Variables KeywordClass Vocabulary FormatValidator : Type.
Variable Vocabulary_new : URI -> list KeywordClass -> Vocabulary.

(** The dictionaries [_vocabularies] and [_format_validators] of a
    catalogue. *)
Record Registries : Type := mkRegistries {
  _vocabularies : gmap URI Vocabulary;
  _format_validators : gmap string FormatValidator
}.

(** [create_vocabulary(uri, *kwclasses)] *)
Definition create_vocabulary (uri : URI) (kwclasses : list KeywordClass)
           (reg : Registries) : Registries :=
  {| _vocabularies := <[uri := Vocabulary_new uri kwclasses]> (_vocabularies reg);
     _format_validators := _format_validators reg |}.

(** [get_vocabulary(uri)] *)
Definition get_vocabulary (uri : URI) (reg : Registries) : result Vocabulary :=
  match _vocabularies reg !! uri with
  | Some vocabulary => Ok vocabulary
  | None => Raise (CatalogueError "Unrecognized vocabulary URI '{uri}'")
  end.

(** [add_format_validators(validators)]: [dict.update]. *)
Definition add_format_validators (validators : gmap string FormatValidator)
           (reg : Registries) : Registries :=
  {| _vocabularies := _vocabularies reg;
     _format_validators := validators ∪ _format_validators reg |}.

(** [get_format_validator(format_attr)] *)
Definition get_format_validator (format_attr : string) (reg : Registries)
  : result FormatValidator :=
  match _format_validators reg !! format_attr with
  | Some validator => Ok validator
  | None => Raise (CatalogueError "Unsupported format attribute '{format_attr}'")
  end.

End with_registries.

Arguments mkRegistries {Vocabulary FormatValidator} _ _.
Arguments _vocabularies {Vocabulary FormatValidator} _.
Arguments _format_validators {Vocabulary FormatValidator} _.
Arguments create_vocabulary {KeywordClass Vocabulary FormatValidator} _ _ _ _.
Arguments get_vocabulary {Vocabulary FormatValidator} _ _.
Arguments add_format_validators {Vocabulary FormatValidator} _ _.
Arguments get_format_validator {Vocabulary FormatValidator} _ _.

Section with_initializers.

(** The catalogue object under construction, with its dictionaries empty,
    and the initializers of the two versions ([_2019_09.initialize],
    [_2020_12.initialize], not among the sources), which fill it or raise. *)
Variable Self : Type.
Variable new_self : Self.
Variables _2019_09_initialize _2020_12_initialize : Self -> result Self.

Definition _version_initializers (version : string) : option (Self -> result Self) :=
  if String.eqb version "2019-09" then Some _2019_09_initialize
  else if String.eqb version "2020-12" then Some _2020_12_initialize
  else None.

(** The list comprehension over [versions]: the [KeyError] of the first
    unknown version becomes a [CatalogueError] that names it. *)
Fixpoint initializers_of (versions : list string)
  : result (list (Self -> result Self)) :=
  match versions with
  | [] => Ok []
  | version :: rest =>
      match _version_initializers version with
      | Some initializer =>
          do initializers <- initializers_of rest; Ok (initializer :: initializers)
      | None => Raise (CatalogueError ("Unrecognized version '" +:+ version +:+ "'"))
      end
  end.

Fixpoint run_initializers (initializers : list (Self -> result Self)) (self : Self)
  : result Self :=
  match initializers with
  | [] => Ok self
  | initializer :: rest => do self <- initializer self; run_initializers rest self
  end.

(** The constructor [Catalogue] called with the versions and [default]: the
    new catalogue or the exception,
    and the class attribute [_default_catalogue] afterwards. *)
Definition __init__ (versions : list string) (default : bool)
           (_default_catalogue : option Self) : result Self * option Self :=
  match initializers_of versions with
  | Ok initializers =>
      match run_initializers initializers new_self with
      | Ok self => (Ok self, if default then Some self else _default_catalogue)
      | Raise e => (Raise e, _default_catalogue)
      end
  | Raise e => (Raise e, _default_catalogue)
  end.

(** [Catalogue.get_default()] *)
Definition get_default (_default_catalogue : option Self) : option Self :=
  _default_catalogue.

End with_initializers.

(** The first candidate is at least as long as the others. *)
Definition head_longest (cs : list (string * Path)) : Prop :=
  match cs with
  | [] => True
  | c :: rest =>
      forall x, In x rest -> (String.length x.1 <= String.length c.1)%nat
  end.

(** The cached schemas, one entry per session and URI they are filed
    under. *)
Definition entries (cat : Catalogue) : list ((Session * URI) * Doc) :=
  sm ← map_to_list (_schema_cache cat);
  (fun us : URI * Doc => ((sm.1, us.1), us.2)) <$> map_to_list sm.2.

End catalogue.

Import validation catalogue.

(** * Properties *)

(** ** Numbers: the comparisons compute on the mathematical values *)

Section number_facts.

Local Open Scope Q_scope.

Lemma ten_neq_0 : ~ inject_Z 10 == 0.
Proof. intros H. discriminate H. Qed.

Lemma ten_pow_pos (e : Z) : 0 < inject_Z 10 ^ e.
Proof. apply Qpower_0_lt. reflexivity. Qed.

Lemma dec_value_scaled (d : Decimal) (e : Z) :
  (e <= exp d)%Z -> dec_value d == inject_Z (scaled d e) * inject_Z 10 ^ e.
Proof.
  intros He. unfold dec_value, scaled.
  rewrite inject_Z_mult, Zpower_Qpower by lia.
  rewrite <- Qmult_assoc, <- Qpower_plus by apply ten_neq_0.
  replace (exp d - e + e)%Z with (exp d) by lia. reflexivity.
Qed.

Lemma dec_value_of_int (n : Z) : dec_value (of_int n) == inject_Z n.
Proof. unfold dec_value, of_int. simpl. ring. Qed.

Lemma value_as_decimal (x : Number) : dec_value (as_decimal x) == num_value x.
Proof. destruct x; simpl; [apply dec_value_of_int | reflexivity]. Qed.

Lemma Zcompare_inject (a b : Z) : (a ?= b)%Z = (inject_Z a ?= inject_Z b).
Proof. unfold Qcompare. simpl. now rewrite !Z.mul_1_r. Qed.

Lemma Qcompare_mult_pos_r (x y z : Q) : 0 < z -> (x * z ?= y * z) = (x ?= y).
Proof.
  intros Hz. destruct (Qcompare_spec x y) as [H|H|H].
  - apply Qeq_alt. now rewrite H.
  - apply Qlt_alt. now apply Qmult_lt_r.
  - apply Qgt_alt. now apply Qmult_lt_r.
Qed.

Lemma dec_compare_value (a b : Decimal) :
  dec_compare a b = (dec_value a ?= dec_value b).
Proof.
  unfold dec_compare.
  rewrite (dec_value_scaled a (Z.min (exp a) (exp b))) by lia.
  rewrite (dec_value_scaled b (Z.min (exp a) (exp b))) by lia.
  rewrite Qcompare_mult_pos_r by apply ten_pow_pos.
  apply Zcompare_inject.
Qed.

Lemma compare_value (x y : Number) : Numbers.compare x y = (num_value x ?= num_value y).
Proof.
  destruct x as [a|a], y as [b|b]; simpl; try apply Zcompare_inject;
    rewrite dec_compare_value; simpl; rewrite ?dec_value_of_int; reflexivity.
Qed.

Lemma eqb_value (x y : Number) : Numbers.eqb x y = true <-> num_value x == num_value y.
Proof.
  unfold Numbers.eqb. rewrite compare_value, Qeq_alt.
  destruct (num_value x ?= num_value y); split; congruence.
Qed.

Lemma ltb_value (x y : Number) : Numbers.ltb x y = true <-> num_value x < num_value y.
Proof.
  unfold Numbers.ltb. rewrite compare_value, Qlt_alt.
  destruct (num_value x ?= num_value y); split; congruence.
Qed.

Lemma leb_value (x y : Number) : Numbers.leb x y = true <-> num_value x <= num_value y.
Proof.
  unfold Numbers.leb. rewrite compare_value, Qle_alt.
  destruct (num_value x ?= num_value y); split; congruence.
Qed.

Lemma gtb_value (x y : Number) : Numbers.gtb x y = true <-> num_value y < num_value x.
Proof. apply ltb_value. Qed.

Lemma geb_value (x y : Number) : Numbers.geb x y = true <-> num_value y <= num_value x.
Proof. apply leb_value. Qed.

Lemma ltb_geb (x y : Number) : Numbers.ltb x y = negb (Numbers.geb x y).
Proof.
  unfold Numbers.geb, Numbers.leb, Numbers.ltb. rewrite !compare_value.
  rewrite <- (Qcompare_antisym (num_value x) (num_value y)).
  destruct (num_value x ?= num_value y); reflexivity.
Qed.

Lemma eqb_sym (x y : Number) : Numbers.eqb x y = Numbers.eqb y x.
Proof.
  unfold Numbers.eqb. rewrite !compare_value.
  rewrite <- (Qcompare_antisym (num_value x) (num_value y)).
  destruct (num_value x ?= num_value y); reflexivity.
Qed.

Lemma eqb_refl (x : Number) : Numbers.eqb x x = true.
Proof. apply eqb_value. reflexivity. Qed.

Lemma eqb_trans (x y z : Number) :
  Numbers.eqb x y = true -> Numbers.eqb y z = true -> Numbers.eqb x z = true.
Proof. rewrite !eqb_value. intros H1 H2. now rewrite H1. Qed.

End number_facts.

(** ** Scopes *)

Lemma fail_errors (instance : JSON) (msg : Message) (s : Scope) :
  errors (fail instance msg s) = errors s ++ [mkError (path instance) msg].
Proof. reflexivity. Qed.

Lemma fail_invalid (instance : JSON) (msg : Message) (s : Scope) :
  valid (fail instance msg s) = false.
Proof. unfold valid, fail. simpl. now destruct (errors s). Qed.

Lemma fail_neq (instance : JSON) (msg : Message) (s : Scope) :
  fail instance msg s <> s.
Proof.
  intros H. apply (f_equal errors) in H. rewrite fail_errors in H.
  apply (f_equal (@length Error)) in H. rewrite length_app in H. simpl in H. lia.
Qed.

Lemma app_one_neq {A : Type} (l : list A) (x : A) : l ++ [x] <> l.
Proof.
  intros H. apply (f_equal (@length A)) in H. rewrite length_app in H.
  simpl in H. lia.
Qed.

Lemma valid_clear_errors (s : Scope) : valid (clear_errors s) = true.
Proof. reflexivity. Qed.

(** ** [maxContains] *)

(** C10: [maxContains] records an error exactly when the sibling scope of
    [contains] exists and carries a ["contains"] annotation whose value is
    strictly greater than the keyword's value; with no such sibling, or with
    a sibling that has no ["contains"] annotation, the frame is left as it
    was, so that the scope stays valid.  The siblings are never touched. *)
Theorem maxContains_error_iff (limit : Number) (instance : JSON) (fr : Frame) :
  let fr' := validation.MaxContainsKeyword.evaluate limit instance fr in
  let exceeded :=
    exists contains a,
      sibling "contains" fr = Some contains /\
      annotations contains !! "contains" = Some a /\
      (num_value limit < num_value (ann_value a))%Q in
  siblings fr' = siblings fr /\
  (exceeded ->
   valid (scope fr') = false /\
   exists msg, errors (scope fr') = errors (scope fr) ++ [mkError (path instance) msg]) /\
  (~ exceeded -> fr' = fr) /\
  (sibling "contains" fr = None -> fr' = fr) /\
  (forall contains,
     sibling "contains" fr = Some contains ->
     annotations contains !! "contains" = None -> fr' = fr) /\
  (fr' = fr -> valid (scope fr') = valid (scope fr)).
Proof.
  cbv zeta. unfold validation.MaxContainsKeyword.evaluate.
  destruct (sibling "contains" fr) as [c|] eqn:Hc;
    [destruct (annotations c !! "contains") as [a|] eqn:Ha;
     [destruct (Numbers.gtb (ann_value a) limit) eqn:Hgt|]|].
  - apply gtb_value in Hgt.
    split; [reflexivity|]. split; [|split; [|split; [|split]]].
    + intros _. split; [apply fail_invalid | eexists; apply fail_errors].
    + intros Hn. exfalso. apply Hn. exists c, a. auto.
    + discriminate.
    + intros c' Hc' Ha'. congruence.
    + intros ->. reflexivity.
  - assert (Hn : ~ (num_value limit < num_value (ann_value a))%Q).
    { intros H. apply gtb_value in H. congruence. }
    split; [reflexivity|]. split; [|auto].
    intros (c' & a' & Hc' & Ha' & Hlt). exfalso. congruence.
  - split; [reflexivity|]. split; [|auto].
    intros (c' & a' & Hc' & Ha' & Hlt). congruence.
  - split; [reflexivity|]. split; [|auto].
    intros (c' & a' & Hc' & Ha' & Hlt). congruence.
Qed.

(** ** [minContains] *)

Lemma frame_valid_spec (fr : Frame) :
  frame_valid fr = true <->
  valid (scope fr) = true /\
  forall k s, siblings fr !! k = Some s -> valid s = true.
Proof.
  unfold frame_valid. rewrite andb_true_iff, bool_decide_eq_true.
  unfold map_Forall. reflexivity.
Qed.

(** C1: with a sibling scope of [contains], [minContains] fails exactly when
    the count of matching elements (the ["contains"] annotation, 0 without
    one) is strictly less than the keyword's value; when it is satisfied,
    the sibling is invalid and there is no [maxContains] sibling or a valid
    one, the errors of the [contains] sibling are cleared; hence with the
    value 0, no [maxContains] and otherwise valid siblings, the whole frame
    ends valid whatever the [contains] sibling held. *)
Theorem minContains_evaluate_spec
  (limit : Number) (instance : JSON) (fr : Frame) (contains : Scope) :
  sibling "contains" fr = Some contains ->
  let fr' := validation.MinContainsKeyword.evaluate limit instance fr in
  let count := validation.MinContainsKeyword.contains_count contains in
  (annotations contains !! "contains" = None -> count = Int 0) /\
  (forall a, annotations contains !! "contains" = Some a -> count = ann_value a) /\
  ((num_value count < num_value limit)%Q ->
   valid (scope fr') = false /\
   siblings fr' = siblings fr /\
   exists msg, errors (scope fr') = errors (scope fr) ++ [mkError (path instance) msg]) /\
  (~ (num_value count < num_value limit)%Q -> scope fr' = scope fr) /\
  (~ (num_value count < num_value limit)%Q ->
   valid contains = false ->
   (sibling "maxContains" fr = None \/
    exists max_contains,
      sibling "maxContains" fr = Some max_contains /\ valid max_contains = true) ->
   siblings fr' = <["contains" := clear_errors contains]> (siblings fr) /\
   (exists contains',
      sibling "contains" fr' = Some contains' /\
      errors contains' = [] /\ valid contains' = true /\
      annotations contains' = annotations contains)) /\
  ((num_value limit == 0)%Q ->
   (0 <= num_value count)%Q ->
   sibling "maxContains" fr = None ->
   valid (scope fr) = true ->
   (forall k s, siblings fr !! k = Some s -> k <> "contains" -> valid s = true) ->
   frame_valid fr' = true /\ errors (scope fr') = errors (scope fr)).
Proof.
  intros Hc. cbv zeta.
  unfold validation.MinContainsKeyword.evaluate. rewrite Hc.
  set (count := validation.MinContainsKeyword.contains_count contains).
  assert (Hge : Numbers.geb count limit = true <->
                ~ (num_value count < num_value limit)%Q).
  { rewrite geb_value. split.
    - intros Hle Hlt. apply (Qlt_irrefl (num_value count)).
      eapply Qlt_le_trans; eassumption.
    - apply Qnot_lt_le. }
  split; [|split; [|split; [|split; [|split]]]].
  - subst count. unfold validation.MinContainsKeyword.contains_count.
    now intros ->.
  - subst count. unfold validation.MinContainsKeyword.contains_count.
    now intros a ->.
  - intros Hlt.
    destruct (Numbers.geb count limit) eqn:Hg.
    { exfalso. now apply Hge. }
    simpl. split; [apply fail_invalid|]. split; [reflexivity|].
    eexists. apply fail_errors.
  - intros Hn. apply Hge in Hn. rewrite Hn. simpl.
    destruct (negb (valid contains)); [|reflexivity].
    destruct (sibling "maxContains" fr) as [mc|]; [|reflexivity].
    destruct (valid mc); reflexivity.
  - intros Hn Hinv Hmax. apply Hge in Hn. rewrite Hn, Hinv. simpl.
    destruct Hmax as [Hm|(mc & Hm & Hv)]; rewrite Hm; rewrite ?Hv; simpl.
    + split; [reflexivity|]. exists (clear_errors contains).
      unfold sibling. simpl. rewrite lookup_insert_eq. auto.
    + split; [reflexivity|]. exists (clear_errors contains).
      unfold sibling. simpl. rewrite lookup_insert_eq. auto.
  - intros Hz Hnn Hmax Hv Hothers.
    assert (Hg : Numbers.geb count limit = true).
    { apply geb_value. now rewrite Hz. }
    rewrite Hg, Hmax. simpl.
    destruct (valid contains) eqn:Hvc; simpl.
    + split; [|reflexivity]. apply frame_valid_spec. split; [assumption|].
      intros k s Hk. destruct (decide (k = "contains")) as [->|Hne].
      * unfold sibling in Hc. congruence.
      * eauto.
    + split; [|reflexivity]. apply frame_valid_spec. simpl. split; [assumption|].
      intros k s Hk. destruct (decide (k = "contains")) as [->|Hne].
      * rewrite lookup_insert_eq in Hk. now inversion Hk.
      * rewrite lookup_insert_ne in Hk by congruence. eauto.
Qed.

Lemma minContains_evaluate_spec_witness :
  let instance := mkJSON (VArr [VNum (Int 2); VNum (Int 3)]) [] false in
  let contains :=
    fail instance (Msg "The array does not contain a required element" []) new_scope in
  let fr := {| scope := new_scope; siblings := {["contains" := contains]} |} in
  frame_valid (validation.MinContainsKeyword.evaluate (Int 0) instance fr) = true.
Proof.
  cbv zeta.
  pose proof (minContains_evaluate_spec (Int 0)
                (mkJSON (VArr [VNum (Int 2); VNum (Int 3)]) [] false)
                {| scope := new_scope;
                   siblings :=
                     {["contains" :=
                         fail (mkJSON (VArr [VNum (Int 2); VNum (Int 3)]) [] false)
                              (Msg "The array does not contain a required element" [])
                              new_scope]} |}
                _ eq_refl) as H.
  cbv zeta in H. destruct H as (_ & _ & _ & _ & _ & H).
  apply H.
  - reflexivity.
  - vm_compute. discriminate.
  - reflexivity.
  - reflexivity.
  - intros k s Hk Hne. unfold siblings in Hk.
    rewrite lookup_singleton_ne in Hk by congruence. discriminate.
Defined.

(** ** [type] *)

Section type_facts.

Local Open Scope Q_scope.

Lemma dec_value_nonneg_exp (d : Decimal) :
  (0 <= exp d)%Z -> dec_value d == inject_Z (coeff d * 10 ^ exp d).
Proof.
  intros He. unfold dec_value. now rewrite inject_Z_mult, Zpower_Qpower.
Qed.

Lemma dec_value_neg_exp (d : Decimal) (k : Z) :
  (exp d < 0)%Z ->
  dec_value d == inject_Z k <-> coeff d = (k * 10 ^ (- exp d))%Z.
Proof.
  intros He. unfold dec_value.
  assert (H1 : inject_Z 10 ^ exp d * inject_Z (10 ^ (- exp d)) == 1).
  { rewrite Zpower_Qpower by lia. rewrite <- Qpower_plus by apply ten_neq_0.
    replace (exp d + - exp d)%Z with 0%Z by lia. reflexivity. }
  split.
  - intros H. apply inject_Z_injective. rewrite inject_Z_mult, <- H.
    rewrite <- Qmult_assoc, H1. ring.
  - intros ->. rewrite inject_Z_mult, <- Qmult_assoc.
    rewrite (Qmult_comm (inject_Z (10 ^ (- exp d)))), H1. ring.
Qed.

(** [x == int(x)] holds exactly for the numbers whose value is an integer. *)
Lemma eqb_py_int_integral (x : Number) :
  Numbers.eqb x (Int (py_int x)) = true <-> exists k : Z, num_value x == inject_Z k.
Proof.
  rewrite eqb_value. split.
  - intros H. now exists (py_int x).
  - intros [k Hk]. rewrite Hk. simpl. apply inject_Z_injective.
    destruct x as [n|d]; simpl in *.
    + symmetry. now apply inject_Z_injective.
    + destruct (0 <=? exp d)%Z eqn:He.
      * apply Z.leb_le in He. rewrite dec_value_nonneg_exp in Hk by assumption.
        symmetry. now apply inject_Z_injective.
      * apply Z.leb_gt in He. apply dec_value_neg_exp in Hk; [|assumption].
        rewrite Hk. symmetry. apply Z.quot_mul.
        apply Z.pow_nonzero; lia.
Qed.

End type_facts.

(** C6: for an instance of type ["number"], when the listed types include
    ["integer"] and not ["number"], [type] succeeds exactly when the value
    equals its truncation [int(value)], that is when the value is an
    integer; a rejection appends one error to the scope, which makes it
    invalid.  In particular [{"type": "integer"}] accepts 2.0 and rejects
    2.5. *)
Theorem type_integer_accepts_integral_numbers :
  (forall (self_json : JSONValue) (instance : JSON) (x : Number) (scope : Scope),
      type instance = "number" ->
      value instance = VNum x ->
      py_in (VStr "integer") (tuplify self_json) = true ->
      py_in (VStr "number") (tuplify self_json) = false ->
      let scope' := validation.TypeKeyword.evaluate self_json instance scope in
      (scope' = scope <-> Numbers.eqb x (Int (py_int x)) = true) /\
      (Numbers.eqb x (Int (py_int x)) = true <->
       exists k : Z, (num_value x == inject_Z k)%Q) /\
      (Numbers.eqb x (Int (py_int x)) = false ->
       valid scope' = false /\
       errors scope' =
         errors scope ++
         [mkError (path instance)
                  (Msg "The instance must be of type {self.json}" [self_json])])) /\
  (forall (p : JSONPointer) (hint : bool) (scope : Scope),
      validation.TypeKeyword.evaluate (VStr "integer")
        (mkJSON (VNum (Dec (mkDecimal 20 (-1)))) p hint) scope = scope) /\
  (forall (p : JSONPointer) (scope : Scope),
      let instance := mkJSON (VNum (Dec (mkDecimal 25 (-1)))) p false in
      validation.TypeKeyword.evaluate (VStr "integer") instance scope =
      fail instance (Msg "The instance must be of type {self.json}" [VStr "integer"])
           scope).
Proof.
  split; [|split].
  - intros self_json instance x scope Hty Hval Hint Hnum. cbv zeta.
    unfold validation.TypeKeyword.evaluate, validation.TypeKeyword.is_valid.
    rewrite Hty, Hnum, Hint, Hval. simpl.
    split; [|split].
    + destruct (Numbers.eqb x (Int (py_int x))); simpl.
      * split; reflexivity.
      * split; [|discriminate]. intros H. exfalso. eapply fail_neq. exact H.
    + apply eqb_py_int_integral.
    + intros ->. simpl. split; [apply fail_invalid | apply fail_errors].
  - intros p [] scope; reflexivity.
  - intros p scope. reflexivity.
Qed.

Lemma type_integer_witness :
  let instance := mkJSON (VNum (Dec (mkDecimal 25 (-1)))) ["price"] false in
  valid (validation.TypeKeyword.evaluate
           (VArr [VStr "integer"; VStr "string"]) instance new_scope) = false.
Proof.
  cbv zeta.
  apply (proj1 type_integer_accepts_integral_numbers
           (VArr [VStr "integer"; VStr "string"])
           (mkJSON (VNum (Dec (mkDecimal 25 (-1)))) ["price"] false)
           (Dec (mkDecimal 25 (-1))) new_scope
           eq_refl eq_refl eq_refl eq_refl).
  reflexivity.
Defined.

(** ** [uniqueItems] *)

Section unique_items_facts.

Local Abbreviation step := validation.UniqueItemsKeyword.uniquify_step.

Lemma py_in_spec (x : JSONValue) (xs : list JSONValue) :
  py_in x xs = true <-> exists e, In e xs /\ json_eq e x = true.
Proof. unfold py_in. apply existsb_exists. Qed.

Lemma uniquify_length_le (items acc : list JSONValue) :
  (length (fold_left step items acc) <= length acc + length items)%nat.
Proof.
  revert acc. induction items as [|x xs IH]; intros acc; simpl; [lia|].
  unfold step at 2. destruct (py_in x acc); simpl.
  - specialize (IH acc). lia.
  - specialize (IH (acc ++ [x])). rewrite length_app in IH. simpl in IH. lia.
Qed.

(** An item is dropped exactly when it equals a kept element or an earlier
    item. *)
Lemma uniquify_length_lt (items acc : list JSONValue) :
  (length (fold_left step items acc) < length acc + length items)%nat <->
  exists l1 y l2 e,
    items = l1 ++ y :: l2 /\ In e (acc ++ l1) /\ json_eq e y = true.
Proof.
  revert acc. induction items as [|x xs IH]; intros acc; simpl.
  - split; [lia|]. intros (l1 & y & l2 & e & H & _). now destruct l1.
  - unfold step at 2. destruct (py_in x acc) eqn:Hin; simpl.
    + split.
      * intros _. apply py_in_spec in Hin as (e & He & Heq).
        exists [], x, xs, e. rewrite app_nil_r. auto.
      * intros _. pose proof (uniquify_length_le xs acc). lia.
    + rewrite <- Nat.add_succ_comm.
      replace (S (length acc)) with (length (acc ++ [x]))
        by (rewrite length_app; simpl; lia).
      rewrite IH. split.
      * intros (l1 & y & l2 & e & -> & He & Heq).
        exists (x :: l1), y, l2, e. rewrite <- app_assoc in He. auto.
      * intros (l1 & y & l2 & e & Hxs & He & Heq).
        destruct l1 as [|x' l1]; simpl in Hxs; inversion Hxs; subst.
        -- rewrite app_nil_r in He.
           assert (py_in y acc = true) by (apply py_in_spec; eauto). congruence.
        -- exists l1, y, l2, e. rewrite <- app_assoc. auto.
Qed.

Lemma split_pair_iff (items : list JSONValue) :
  (exists l1 y l2 e, items = l1 ++ y :: l2 /\ In e l1 /\ json_eq e y = true) <->
  validation.has_equal_pair items.
Proof.
  unfold validation.has_equal_pair. split.
  - intros (l1 & y & l2 & e & -> & He & Heq).
    apply list_elem_of_In, list_elem_of_lookup in He as [i Hi].
    exists i, (length l1), e, y. repeat split; auto.
    + apply lookup_lt_Some in Hi. lia.
    + rewrite lookup_app_l by (apply lookup_lt_Some in Hi; lia). exact Hi.
    + rewrite list_lookup_middle; reflexivity.
  - intros (i & j & x & y & Hij & Hi & Hj & Heq).
    apply list_elem_of_split_length in Hj as (l1 & l2 & -> & Hlen).
    exists l1, y, l2, x. repeat split; auto.
    rewrite lookup_app_l in Hi by lia.
    apply list_elem_of_In. eapply list_elem_of_lookup_2. exact Hi.
Qed.

Lemma uniquify_shorter_iff (items : list JSONValue) :
  (length (validation.UniqueItemsKeyword.uniquify items) < length items)%nat <->
  validation.has_equal_pair items.
Proof.
  rewrite <- split_pair_iff.
  apply (uniquify_length_lt items []).
Qed.

End unique_items_facts.

Lemma json_eq_array (xs ys : list JSONValue) :
  json_eq (VArr xs) (VArr ys) = true <->
  Forall2 (fun x y => json_eq x y = true) xs ys.
Proof.
  simpl. revert ys. induction xs as [|x xs IH]; intros [|y ys]; simpl.
  - split; auto.
  - split; [discriminate | inversion 1].
  - split; [discriminate | inversion 1].
  - rewrite andb_true_iff, IH. split.
    + intros [H1 H2]. now constructor.
    + inversion 1; subst. auto.
Qed.

(** C8: [uniqueItems] with a false value leaves the scope as it is; with a
    true value on an array it fails exactly when two distinct positions hold
    equal elements, appending one error.  The equality is deep (arrays are
    compared element by element) and numeric (two numbers are equal when
    their values are, whatever their representation), so that
    [{"uniqueItems": true}] rejects [[1, 1.0]]. *)
Theorem uniqueItems_fails_iff_equal_pair :
  (forall (instance : JSON) (scope : Scope),
      validation.UniqueItemsKeyword.evaluate (VBool false) instance scope = scope) /\
  (forall (instance : JSON) (items : list JSONValue) (scope : Scope),
      value instance = VArr items ->
      let scope' := validation.UniqueItemsKeyword.evaluate (VBool true) instance scope in
      (validation.has_equal_pair items ->
       valid scope' = false /\
       errors scope' =
         errors scope ++
         [mkError (path instance) (Msg "The array's elements must all be unique" [])]) /\
      (~ validation.has_equal_pair items -> scope' = scope)) /\
  (forall x y : Number,
      json_eq (VNum x) (VNum y) = true <-> (num_value x == num_value y)%Q) /\
  (forall xs ys : list JSONValue,
      json_eq (VArr xs) (VArr ys) = true <->
      Forall2 (fun x y => json_eq x y = true) xs ys) /\
  (forall (p : JSONPointer) (scope : Scope),
      valid (validation.UniqueItemsKeyword.evaluate (VBool true)
               (mkJSON (VArr [VNum (Int 1); VNum (Dec (mkDecimal 10 (-1)))]) p false)
               scope) = false).
Proof.
  split; [|split; [|split; [|split]]].
  - reflexivity.
  - intros instance items scope Hval. cbv zeta.
    unfold validation.UniqueItemsKeyword.evaluate. rewrite Hval. simpl.
    destruct (length (validation.UniqueItemsKeyword.uniquify items) <? length items)%nat
      eqn:Hlt.
    + apply Nat.ltb_lt, uniquify_shorter_iff in Hlt. split.
      * intros _. split; [apply fail_invalid | apply fail_errors].
      * intros Hn. contradiction.
    + apply Nat.ltb_ge in Hlt. split.
      * intros Hp. apply uniquify_shorter_iff in Hp. lia.
      * reflexivity.
  - intros x y. simpl. apply eqb_value.
  - apply json_eq_array.
  - intros p scope. apply fail_invalid.
Qed.

Lemma uniqueItems_witness :
  let instance :=
    mkJSON (VArr [VStr "a"; VArr [VNum (Int 1)]; VArr [VNum (Dec (mkDecimal 100 (-2)))]])
           [] false in
  valid (validation.UniqueItemsKeyword.evaluate (VBool true) instance new_scope) = false.
Proof.
  cbv zeta.
  apply (proj1 (proj2 uniqueItems_fails_iff_equal_pair)
           (mkJSON (VArr [VStr "a"; VArr [VNum (Int 1)];
                          VArr [VNum (Dec (mkDecimal 100 (-2)))]]) [] false)
           _ new_scope eq_refl).
  exists 1%nat, 2%nat, (VArr [VNum (Int 1)]), (VArr [VNum (Dec (mkDecimal 100 (-2)))]).
  repeat split. lia.
Defined.

(** ** The schema cache *)

Lemma set_cache_id (cat : Catalogue) : set_cache (_schema_cache cat) cat = cat.
Proof. now destruct cat. Qed.

Lemma elem_of_entries (cat : Catalogue) (s : Session) (u : URI) (d : Doc) :
  ((s, u), d) ∈ entries cat <-> cache_get cat s u = Some d.
Proof.
  unfold entries, cache_get. rewrite list_elem_of_bind. split.
  - intros ([s' m] & Hin & Hm). simpl in Hin.
    apply list_elem_of_fmap in Hin as ([u' d'] & Heq & Hin). simpl in Heq.
    inversion Heq; subst.
    apply elem_of_map_to_list in Hm, Hin. now rewrite Hm.
  - destruct (_schema_cache cat !! s) as [m|] eqn:Hm; [|discriminate].
    intros Hu. exists (s, m). split.
    + simpl. apply list_elem_of_fmap. exists (u, d). split; [reflexivity|].
      now apply elem_of_map_to_list.
    + now apply elem_of_map_to_list.
Qed.

Lemma NoDup_entries (cat : Catalogue) : NoDup (entries cat).
Proof.
  unfold entries. apply NoDup_bind.
  - intros [s1 m1] [s2 m2] [[s u] d] H1 H2 Hy1 Hy2. simpl in *.
    apply list_elem_of_fmap in Hy1 as ([u1 d1] & Heq1 & _).
    apply list_elem_of_fmap in Hy2 as ([u2 d2] & Heq2 & _).
    simpl in *. inversion Heq1; inversion Heq2; subst.
    apply elem_of_map_to_list in H1, H2. congruence.
  - intros [s m] _. simpl. apply NoDup_fmap_2_strong.
    + intros [u1 d1] [u2 d2] _ _ Heq. simpl in Heq. congruence.
    + apply NoDup_map_to_list.
  - apply NoDup_map_to_list.
Qed.

Lemma NoDup_entries_keys (cat : Catalogue) : NoDup (entries cat).*1.
Proof.
  apply NoDup_fmap_fst; [|apply NoDup_entries].
  intros [s u] d1 d2 H1 H2. apply elem_of_entries in H1, H2. congruence.
Qed.

Lemma cache_get_add_schema (uri : URI) (schema : Doc) (session : Session)
      (cat : Catalogue) (s : Session) (u : URI) :
  cache_get (add_schema uri schema session cat) s u =
  if decide ((s, u) = (session, uri)) then Some schema else cache_get cat s u.
Proof.
  unfold add_schema, cache_get, set_cache. simpl.
  destruct (decide ((s, u) = (session, uri))) as [Heq|Hne].
  - inversion Heq; subst.
    destruct (_schema_cache cat !! session) as [m|] eqn:Hm.
    + rewrite lookup_alter_eq, Hm. simpl. apply lookup_insert_eq.
    + rewrite lookup_alter_eq, lookup_insert_eq. simpl. apply lookup_insert_eq.
  - destruct (decide (s = session)) as [->|Hs].
    + assert (u <> uri) by congruence.
      destruct (_schema_cache cat !! session) as [m|] eqn:Hm.
      * rewrite lookup_alter_eq, Hm. simpl. now apply lookup_insert_ne.
      * rewrite lookup_alter_eq, lookup_insert_eq. simpl.
        rewrite lookup_insert_ne by congruence. apply lookup_empty.
    + destruct (_schema_cache cat !! session) as [m|] eqn:Hm.
      * now rewrite lookup_alter_ne by congruence.
      * rewrite lookup_alter_ne by congruence.
        now rewrite lookup_insert_ne by congruence.
Qed.

Lemma cache_get_del_schema (uri : URI) (session : Session) (cat : Catalogue)
      (s : Session) (u : URI) :
  cache_get (del_schema uri session cat) s u =
  if decide ((s, u) = (session, uri)) then None else cache_get cat s u.
Proof.
  unfold del_schema, cache_get.
  destruct (decide ((s, u) = (session, uri))) as [Heq|Hne].
  - inversion Heq; subst.
    destruct (_schema_cache cat !! session) as [m|] eqn:Hm; simpl.
    + rewrite lookup_alter_eq, Hm. simpl. apply lookup_delete_eq.
    + now rewrite Hm.
  - destruct (_schema_cache cat !! session) as [m|] eqn:Hm; simpl; [|reflexivity].
    destruct (decide (s = session)) as [->|Hs].
    + assert (u <> uri) by congruence.
      rewrite lookup_alter_eq, Hm. simpl. now apply lookup_delete_ne.
    + now rewrite lookup_alter_ne by congruence.
Qed.

Lemma del_schema_absent (uri : URI) (session : Session) (cat : Catalogue) :
  cache_get cat session uri = None -> del_schema uri session cat = cat.
Proof.
  unfold del_schema, cache_get.
  destruct (_schema_cache cat !! session) as [m|] eqn:Hm; [|reflexivity].
  intros Hu. destruct cat as [dirs cache]. unfold set_cache. simpl in *.
  f_equal. apply map_eq. intros s. destruct (decide (s = session)) as [->|Hs].
  - rewrite lookup_alter_eq, Hm. simpl. now rewrite delete_id.
  - now rewrite lookup_alter_ne by congruence.
Qed.

(** C9: the schema cache lists at most one schema per (session, URI) pair,
    whatever was done to the catalogue; [add_schema] makes its schema the
    one entry of its key, replacing an earlier one, and touches no other
    key; [del_schema] empties its key, touches no other key, and changes
    nothing at all (and raises nothing) when the session or the URI is not
    there. *)
Theorem schema_cache_one_schema_per_key :
  (forall cat : Catalogue, NoDup (entries cat).*1) /\
  (forall (cat : Catalogue) (s : Session) (u : URI) (d : Doc),
      ((s, u), d) ∈ entries cat <-> cache_get cat s u = Some d) /\
  (forall (uri : URI) (schema : Doc) (session : Session) (cat : Catalogue),
      let cat' := add_schema uri schema session cat in
      cache_get cat' session uri = Some schema /\
      (forall d, ((session, uri), d) ∈ entries cat' -> d = schema) /\
      (forall s u, (s, u) <> (session, uri) -> cache_get cat' s u = cache_get cat s u) /\
      _directories cat' = _directories cat) /\
  (forall (uri : URI) (session : Session) (cat : Catalogue),
      let cat' := del_schema uri session cat in
      cache_get cat' session uri = None /\
      (forall d, ((session, uri), d) ∉ entries cat') /\
      (forall s u, (s, u) <> (session, uri) -> cache_get cat' s u = cache_get cat s u) /\
      (_schema_cache cat !! session = None -> cat' = cat) /\
      (cache_get cat session uri = None -> cat' = cat)).
Proof.
  split; [apply NoDup_entries_keys|]. split; [apply elem_of_entries|]. split.
  - intros uri schema session cat. cbv zeta.
    assert (Hget : cache_get (add_schema uri schema session cat) session uri = Some schema).
    { rewrite cache_get_add_schema. now rewrite decide_True. }
    split; [exact Hget|]. split; [|split].
    + intros d Hd. apply elem_of_entries in Hd. congruence.
    + intros s u Hne. rewrite cache_get_add_schema. now rewrite decide_False.
    + reflexivity.
  - intros uri session cat. cbv zeta.
    assert (Hget : cache_get (del_schema uri session cat) session uri = None).
    { rewrite cache_get_del_schema. now rewrite decide_True. }
    split; [exact Hget|]. split; [|split; [|split]].
    + intros d Hd. apply elem_of_entries in Hd. congruence.
    + intros s u Hne. rewrite cache_get_del_schema. now rewrite decide_False.
    + intros Hs. unfold del_schema. now rewrite Hs.
    + apply del_schema_absent.
Qed.

(** ** Cache lookup order of [get_schema] *)

Lemma first_cached_try_caches (cat : Catalogue) (session : Session) (uri : URI) :
  first_cached cat (try_caches session) uri =
  match cache_get cat session uri with
  | Some schema => Some schema
  | None => cache_get cat __meta__ uri
  end.
Proof.
  unfold try_caches. destruct (decide (session = __meta__)) as [->|Hne]; simpl.
  - now destruct (cache_get cat __meta__ uri).
  - destruct (cache_get cat session uri); [reflexivity|].
    now destruct (cache_get cat __meta__ uri).
Qed.



(** ** Sessions *)

(** C5, as the code has it: without a tag, [session()] yields the UUID it
    drew, provided the cache has no partition under it; with a tag it fails
    with [CatalogueError] exactly when the schema cache has a partition
    under that tag, and yields the tag otherwise; when the scope is left, by
    a value or by an exception of the body, the partition of the session is
    gone from the cache and the other partitions are as the body left
    them. *)
Theorem session_scope_spec :
  (forall (uuid4 : N) (cat : Catalogue),
      _schema_cache cat !! UUID uuid4 = None ->
      session_enter None uuid4 cat = Ok (UUID uuid4)) /\
  (forall (tag : Session) (uuid4 : N) (cat : Catalogue),
      is_Some (_schema_cache cat !! tag) ->
      session_enter (Some tag) uuid4 cat =
        Raise (CatalogueError "session is already in use") /\
      forall (A : Type) (body : Session -> Catalogue -> result A * Catalogue),
        with_session (Some tag) uuid4 body cat =
        (Raise (CatalogueError "session is already in use"), cat)) /\
  (forall (tag : Session) (uuid4 : N) (cat : Catalogue),
      _schema_cache cat !! tag = None ->
      session_enter (Some tag) uuid4 cat = Ok tag) /\
  (forall (A : Type) (session : option Session) (uuid4 : N)
          (body : Session -> Catalogue -> result A * Catalogue)
          (cat : Catalogue) (s : Session),
      session_enter session uuid4 cat = Ok s ->
      let out := with_session session uuid4 body cat in
      out.1 = (body s cat).1 /\
      _schema_cache out.2 !! s = None /\
      (forall uri, cache_get out.2 s uri = None) /\
      (forall s', s' <> s ->
                  _schema_cache out.2 !! s' = _schema_cache (body s cat).2 !! s') /\
      _directories out.2 = _directories (body s cat).2).
Proof.
  split; [|split; [|split]].
  - intros uuid4 cat H. unfold session_enter. rewrite H.
    rewrite decide_False; [reflexivity|]. intros [x Hx]. discriminate.
  - intros tag uuid4 cat H.
    assert (He : session_enter (Some tag) uuid4 cat =
                 Raise (CatalogueError "session is already in use")).
    { unfold session_enter. now rewrite decide_True. }
    split; [exact He|]. intros A body. unfold with_session. now rewrite He.
  - intros tag uuid4 cat H. unfold session_enter. rewrite H.
    rewrite decide_False; [reflexivity|]. intros [x Hx]. discriminate.
  - intros A session uuid4 body cat s He. cbv zeta. unfold with_session.
    rewrite He. destruct (body s cat) as [r cat'] eqn:Hb. simpl.
    split; [reflexivity|]. split; [apply lookup_delete_eq|]. split; [|split].
    + intros uri. unfold cache_get. simpl. now rewrite lookup_delete_eq.
    + intros s' Hne. now apply lookup_delete_ne.
    + reflexivity.
Qed.

Lemma session_scope_witness :
  let uri := mkURI "https://example.com/schema" None true true in
  let cat := mkCatalogue [] ∅ in
  let body := fun (s : Session) (c : Catalogue) =>
                (Raise (OtherError "KeyError") : result unit,
                 add_schema uri (BoolSchema true) s c) in
  (with_session (Some (Name "a")) 0 body cat).1 = Raise (OtherError "KeyError") /\
  cache_get (with_session (Some (Name "a")) 0 body cat).2 (Name "a") uri = None.
Proof.
  cbv zeta.
  pose proof (proj2 (proj2 (proj2 session_scope_spec)) unit (Some (Name "a")) 0%N
                (fun (s : Session) (c : Catalogue) =>
                   (Raise (OtherError "KeyError") : result unit,
                    add_schema (mkURI "https://example.com/schema" None true true)
                               (BoolSchema true) s c))
                (mkCatalogue [] ∅) (Name "a") eq_refl) as H.
  cbv zeta in H. destruct H as (H1 & _ & H3 & _).
  split; [exact H1 | apply H3].
Defined.

(** The claim, as it is written, fails: a scope of the tag ["a"] is open,
    nothing has been cached under it yet, and a second [session("a")]
    inside it yields ["a"] where the claim has a [CatalogueError]. *)
Lemma session_reentry_not_detected :
  let cat := mkCatalogue [] ∅ in
  with_session (Some (Name "a")) 0
    (fun _ cat1 =>
       with_session (Some (Name "a")) 0 (fun s cat2 => (Ok s, cat2)) cat1)
    cat
  = (Ok (Name "a"), cat).
Proof. vm_compute. reflexivity. Qed.

(** ** [load_json] *)

Lemma In_insert_desc (c x : string * Path) (cs : list (string * Path)) :
  In x (insert_desc c cs) <-> x = c \/ In x cs.
Proof.
  induction cs as [|c' cs IH]; simpl.
  - intuition.
  - destruct (String.length c'.1 <=? String.length c.1)%nat; simpl.
    + intuition.
    + rewrite IH. intuition.
Qed.

Lemma In_sort_desc (x : string * Path) (cs : list (string * Path)) :
  In x (sort_desc cs) <-> In x cs.
Proof.
  induction cs as [|c cs IH]; simpl; [reflexivity|].
  rewrite In_insert_desc, IH. intuition.
Qed.

Lemma head_longest_insert_desc (c : string * Path) (cs : list (string * Path)) :
  head_longest cs -> head_longest (insert_desc c cs).
Proof.
  destruct cs as [|c' cs]; simpl; [tauto|].
  intros H. destruct (String.length c'.1 <=? String.length c.1)%nat eqn:Hle; simpl.
  - apply Nat.leb_le in Hle. intros x [<-|Hx]; [assumption|].
    specialize (H x Hx). lia.
  - apply Nat.leb_gt in Hle. intros x Hx. apply In_insert_desc in Hx as [->|Hx].
    + lia.
    + auto.
Qed.

Lemma head_longest_sort_desc (cs : list (string * Path)) : head_longest (sort_desc cs).
Proof.
  induction cs as [|c cs IH]; simpl; [exact I|].
  now apply head_longest_insert_desc.
Qed.

Lemma sort_desc_head (cs : list (string * Path)) (c : string * Path)
      (rest : list (string * Path)) :
  sort_desc cs = c :: rest ->
  In c cs /\ forall x, In x cs -> (String.length x.1 <= String.length c.1)%nat.
Proof.
  intros H. split.
  - apply In_sort_desc. rewrite H. now left.
  - intros x Hx. apply In_sort_desc in Hx. rewrite H in Hx.
    destruct Hx as [->|Hx]; [lia|].
    pose proof (head_longest_sort_desc cs) as Hl. rewrite H in Hl. now apply Hl.
Qed.

Lemma sort_desc_nil (cs : list (string * Path)) : sort_desc cs = [] -> cs = [].
Proof.
  destruct cs as [|c cs]; [reflexivity|]. intros H.
  assert (Hin : In c (sort_desc (c :: cs))) by (apply In_sort_desc; now left).
  rewrite H in Hin. destruct Hin.
Qed.

Lemma In_candidates (cat : Catalogue) (uristr b : string) (d : Path) :
  In (b, d) (candidates cat uristr) <->
  exists base_uri,
    In (base_uri, d) (_directories cat) /\ str base_uri = b /\
    String.prefix b uristr = true.
Proof.
  unfold candidates. rewrite <- list_elem_of_In, list_elem_of_omap. split.
  - intros ([u d'] & Hin & Hsome).
    destruct (String.prefix (str u) uristr) eqn:Hp; [|discriminate].
    inversion Hsome; subst. exists u. rewrite <- list_elem_of_In. auto.
  - intros (u & Hin & <- & Hp). exists (u, d). rewrite list_elem_of_In.
    split; [assumption|]. now rewrite Hp.
Qed.

(** C3, as the code has it: for a valid URI with a matching registered base
    URI, [load_json] takes a longest matching base URI, joins its directory
    with the rest of the URI, and hands at most two paths to [json_loadf],
    in this order: that path, then that path with the suffix of its last
    component replaced by [.json] ([.json] is added only to a name that has
    no suffix).  What the first successful or otherwise failing probe gives
    is the result; when both files are missing it raises
    [CatalogueError]. *)
Theorem load_json_longest_prefix_two_probes
  (json_loadf : Path -> result JSONValue) (cat : Catalogue) (uri : URI) :
  validate uri = true ->
  candidates cat (str uri) <> [] ->
  exists (base_uristr : string) (base_dir : Path),
    (exists base_uri,
        In (base_uri, base_dir) (_directories cat) /\ str base_uri = base_uristr) /\
    String.prefix base_uristr (str uri) = true /\
    (forall base_uri' dir',
        In (base_uri', dir') (_directories cat) ->
        String.prefix (str base_uri') (str uri) = true ->
        (String.length (str base_uri') <= String.length base_uristr)%nat) /\
    let filepath :=
      joinpath base_dir (string_drop (String.length base_uristr) (str uri)) in
    let out := load_json json_loadf cat uri in
    (json_loadf filepath <> Raise FileNotFoundError ->
     out = (json_loadf filepath, [filepath])) /\
    (json_loadf filepath = Raise FileNotFoundError ->
     match rev (parts filepath) with
     | [] => out = (Raise ValueError, [filepath])
     | name :: rest =>
         let filepath' :=
           {| rooted := rooted filepath;
              parts := rev rest ++ [stem name +:+ ".json"] |} in
         (rfind_dot name = None -> stem name = name) /\
         (json_loadf filepath' <> Raise FileNotFoundError ->
          out = (json_loadf filepath', [filepath; filepath'])) /\
         (json_loadf filepath' = Raise FileNotFoundError ->
          out = (Raise (CatalogueError "File not found for '{uri}'"),
                 [filepath; filepath']))
     end).
Proof.
  intros Hv Hc.
  destruct (sort_desc (candidates cat (str uri))) as [|[b d] rest] eqn:Hs.
  { apply sort_desc_nil in Hs. contradiction. }
  pose proof (sort_desc_head _ _ _ Hs) as [Hin Hmax].
  apply In_candidates in Hin as (u & Hu & Hstr & Hp).
  exists b, d. split; [eauto|]. split; [assumption|]. split.
  { intros u' d' Hu' Hp'.
    apply (Hmax (str u', d')). apply In_candidates. eauto. }
  cbv zeta. unfold load_json. rewrite Hv, Hs. simpl.
  set (filepath := joinpath d (string_drop (String.length b) (str uri))).
  split.
  - intros Hne. destruct (json_loadf filepath) as [doc|e]; [reflexivity|].
    destruct e; try reflexivity. contradiction.
  - intros ->. unfold with_suffix.
    destruct (rev (parts filepath)) as [|name rest']; [reflexivity|].
    set (filepath' := {| rooted := rooted filepath;
                         parts := rev rest' ++ [stem name +:+ ".json"] |}).
    split; [|split].
    + intros Hd. unfold stem. now rewrite Hd.
    + intros Hne. destruct (json_loadf filepath') as [doc|e]; [reflexivity|].
      destruct e; try reflexivity. contradiction.
    + intros ->. reflexivity.
Qed.

Lemma load_json_witness :
  let parent := mkURI "https://example.com/" None true true in
  let child := mkURI "https://example.com/meta/" None true true in
  let cat :=
    mkCatalogue [(parent, mkPath true ["data"]); (child, mkPath true ["mnt"])] ∅ in
  let uri := mkURI "https://example.com/meta/core" None true true in
  exists (base_uristr : string),
    String.prefix base_uristr (str uri) = true /\
    (String.length (str child) <= String.length base_uristr)%nat.
Proof.
  cbv zeta.
  destruct (load_json_longest_prefix_two_probes
              (fun _ : Path => Raise FileNotFoundError)
              (mkCatalogue [(mkURI "https://example.com/" None true true,
                             mkPath true ["data"]);
                            (mkURI "https://example.com/meta/" None true true,
                             mkPath true ["mnt"])] ∅)
              (mkURI "https://example.com/meta/core" None true true)
              eq_refl ltac:(vm_compute; discriminate))
    as (b & d & _ & Hp & Hmax & _).
  exists b. split; [exact Hp|].
  apply (Hmax (mkURI "https://example.com/meta/" None true true) (mkPath true ["mnt"])).
  - right. left. reflexivity.
  - reflexivity.
Defined.

(** The child mount shadows its parent: the file is looked for under the
    directory of the longer base URI only. *)
Example load_json_child_mount :
  let parent := mkURI "https://example.com/" None true true in
  let child := mkURI "https://example.com/meta/" None true true in
  let cat :=
    mkCatalogue [(parent, mkPath true ["data"]); (child, mkPath true ["mnt"])] ∅ in
  let uri := mkURI "https://example.com/meta/core" None true true in
  let json_loadf := fun p : Path =>
    if decide (p = mkPath true ["data"; "meta"; "core"]) then Ok (VBool true)
    else Raise FileNotFoundError in
  load_json json_loadf cat uri =
  (Raise (CatalogueError "File not found for '{uri}'"),
   [mkPath true ["mnt"; "core"]; mkPath true ["mnt"; "core.json"]]).
Proof. vm_compute. reflexivity. Qed.

(** The claim, as it is written, fails on a name with a dot: the second
    probe is not the remainder with [.json] appended, and the file of that
    name, which exists, is not found. *)
Lemma load_json_second_probe_replaces_suffix :
  let base := mkURI "https://example.com/" None true true in
  let cat := mkCatalogue [(base, mkPath true ["data"])] ∅ in
  let uri := mkURI "https://example.com/v1.0" None true true in
  let appended := mkPath true ["data"; "v1.0.json"] in
  let json_loadf := fun p : Path =>
    if decide (p = appended) then Ok (VBool true) else Raise FileNotFoundError in
  json_loadf appended = Ok (VBool true) /\
  load_json json_loadf cat uri =
  (Raise (CatalogueError "File not found for '{uri}'"),
   [mkPath true ["data"; "v1.0"]; mkPath true ["data"; "v1.json"]]).
Proof. vm_compute. split; reflexivity. Qed.

(** ** Fragments in [get_schema] *)

Lemma parse_uri_fragment_plain_name (f : string) (c : ascii) (rest : string) :
  unquote f = String c rest -> c <> "/"%char ->
  parse_uri_fragment f = Raise JSONPointerError.
Proof.
  intros Hu Hc. unfold parse_uri_fragment. rewrite Hu.
  destruct (Ascii.eqb c "/") eqn:He; [|reflexivity].
  apply Ascii.eqb_eq in He. contradiction.
Qed.

(** C4, as the code has it: when the URI has a fragment, is no exact cache
    hit, and its base resolves to a schema, a non-empty fragment is parsed
    as a JSON pointer and the pointer is evaluated on that schema; a
    fragment that is no JSON pointer (a plain-name anchor) makes
    [get_schema] raise [CatalogueError], as does a pointer that leads
    nowhere: the anchor table of the schema is never read; and when the
    walk ends on a node that is not a schema, [get_schema] raises
    [CatalogueError]. *)
Theorem get_schema_fragment_spec
  (json_loadf : Path -> result JSONValue)
  (JSONSchema_new : JSONValue -> Catalogue -> Session -> URI -> option URI ->
                    result Doc * Catalogue)
  (uri : URI) (metaschema_uri : option URI) (session : Session)
  (cat cat' : Catalogue) (f : string) (schema : Doc) :
  fragment uri = Some f ->
  first_cached cat (try_caches session) uri = None ->
  base_schema json_loadf JSONSchema_new uri metaschema_uri session cat
    = (Ok schema, cat') ->
  let out := get_schema json_loadf JSONSchema_new uri metaschema_uri session cat in
  let not_found := Raise (CatalogueError "Schema not found for {uri}") in
  let not_a_schema :=
    Raise (CatalogueError "The object referenced by {uri} is not a JSON Schema") in
  out.2 = cat' /\
  (first_cached cat (try_caches session) (copy_no_fragment uri) = Some schema ->
   cat' = cat) /\
  (f = EmptyString ->
   out.1 = if is_JSONSchema schema then Ok schema else not_a_schema) /\
  (f <> EmptyString ->
   (parse_uri_fragment f = Raise JSONPointerError -> out.1 = not_found) /\
   (forall ptr,
       parse_uri_fragment f = Ok ptr ->
       (evaluate ptr schema = Raise JSONPointerError -> out.1 = not_found) /\
       (forall target,
           evaluate ptr schema = Ok target ->
           out.1 = if is_JSONSchema target then Ok target else not_a_schema))) /\
  (forall c rest,
      unquote f = String c rest -> c <> "/"%char ->
      parse_uri_fragment f = Raise JSONPointerError) /\
  (forall tok ptr anchors anchors' keywords,
      evaluate (tok :: ptr) (ObjSchema anchors keywords) =
      evaluate (tok :: ptr) (ObjSchema anchors' keywords)).
Proof.
  intros Hf Hmiss Hbase. cbv zeta. unfold get_schema. rewrite Hmiss, Hbase. simpl.
  split; [reflexivity|]. split; [|split; [|split; [|split]]].
  - intros Hc. unfold base_schema in Hbase. rewrite Hf, Hc in Hbase. congruence.
  - intros ->. unfold descend. rewrite Hf. simpl.
    now destruct (is_JSONSchema schema).
  - intros Hne. destruct f as [|c f]; [contradiction|].
    unfold descend. rewrite Hf. split.
    + intros ->. reflexivity.
    + intros ptr ->. simpl. split.
      * intros ->. reflexivity.
      * intros target ->. simpl. now destruct (is_JSONSchema target).
  - intros c rest. apply parse_uri_fragment_plain_name.
  - reflexivity.
Qed.

Lemma get_schema_fragment_witness :
  let sub := ObjSchema [] [("type", Leaf (VStr "string"))] in
  let root := ObjSchema [] [("$defs", Members [("x", sub)])] in
  let base_uri := mkURI "https://example.com/root" None true true in
  let cat := mkCatalogue [] {[ default := {[ base_uri := root ]} ]} in
  let json_loadf := fun _ : Path => Raise FileNotFoundError : result JSONValue in
  let JSONSchema_new :=
    fun (_ : JSONValue) (c : Catalogue) (_ : Session) (_ : URI) (_ : option URI) =>
      (Raise ValueError : result Doc, c) in
  (get_schema json_loadf JSONSchema_new
     (mkURI "https://example.com/root" (Some "/$defs/x") true true)
     None default cat).1 = Ok sub /\
  (get_schema json_loadf JSONSchema_new
     (mkURI "https://example.com/root" (Some "/$defs") true true)
     None default cat).1 =
  Raise (CatalogueError "The object referenced by {uri} is not a JSON Schema").
Proof.
  cbv zeta. split.
  - pose proof (get_schema_fragment_spec
                  (fun _ : Path => Raise FileNotFoundError)
                  (fun _ c _ _ _ => (Raise ValueError, c))
                  (mkURI "https://example.com/root" (Some "/$defs/x") true true)
                  None default
                  (mkCatalogue []
                     {[ default :=
                          {[ mkURI "https://example.com/root" None true true :=
                               ObjSchema []
                                 [("$defs",
                                   Members [("x", ObjSchema [] [("type", Leaf (VStr "string"))])])] ]} ]})
                  _ "/$defs/x" _ eq_refl eq_refl eq_refl) as H.
    cbv zeta in H. destruct H as (_ & _ & _ & H & _).
    destruct (H ltac:(discriminate)) as [_ Hp].
    destruct (Hp ["$defs"; "x"] eq_refl) as [_ Ht].
    exact (Ht _ eq_refl).
  - pose proof (get_schema_fragment_spec
                  (fun _ : Path => Raise FileNotFoundError)
                  (fun _ c _ _ _ => (Raise ValueError, c))
                  (mkURI "https://example.com/root" (Some "/$defs") true true)
                  None default
                  (mkCatalogue []
                     {[ default :=
                          {[ mkURI "https://example.com/root" None true true :=
                               ObjSchema []
                                 [("$defs",
                                   Members [("x", ObjSchema [] [("type", Leaf (VStr "string"))])])] ]} ]})
                  _ "/$defs" _ eq_refl eq_refl eq_refl) as H.
    cbv zeta in H. destruct H as (_ & _ & _ & H & _).
    destruct (H ltac:(discriminate)) as [_ Hp].
    destruct (Hp ["$defs"] eq_refl) as [_ Ht].
    exact (Ht _ eq_refl).
Defined.

(** The claim, as it is written, fails: the schema has the anchor ["item"]
    in its anchor table, and [get_schema] on the fragment ["item"] raises
    [CatalogueError] instead of returning the anchored subschema. *)
Lemma get_schema_plain_name_anchor_not_resolved :
  let sub := ObjSchema [] [("type", Leaf (VStr "string"))] in
  let root := ObjSchema [("item", sub)] [("$defs", Members [("x", sub)])] in
  let base_uri := mkURI "https://example.com/root" None true true in
  let cat := mkCatalogue [] {[ default := {[ base_uri := root ]} ]} in
  get_schema (fun _ => Raise FileNotFoundError)
             (fun _ c _ _ _ => (Raise ValueError, c))
             (mkURI "https://example.com/root" (Some "item") true true)
             None default cat
  = (Raise (CatalogueError "Schema not found for {uri}"), cat).
Proof. vm_compute. reflexivity. Qed.

(** ** [multipleOf] *)

Section decimal_facts.

Lemma ndigits_aux_pos (fuel : nat) (n : Z) : 1 <= ndigits_aux fuel n.
Proof.
  revert n. induction fuel as [|f IH]; intros n; simpl; [lia|].
  destruct (n <? 10); [lia|]. specialize (IH (n / 10)). lia.
Qed.

Lemma ndigits_aux_bounds (fuel : nat) (n : Z) :
  0 < n -> n < 10 ^ (Z.of_nat fuel + 1) ->
  10 ^ (ndigits_aux fuel n - 1) <= n < 10 ^ ndigits_aux fuel n.
Proof.
  revert n. induction fuel as [|f IH]; intros n Hpos Hlt.
  - simpl in *. change (10 ^ (1 - 1)) with 1. change (10 ^ 1) with 10 in *. lia.
  - simpl ndigits_aux. destruct (n <? 10) eqn:H10.
    + apply Z.ltb_lt in H10. change (10 ^ (1 - 1)) with 1.
      change (10 ^ 1) with 10. lia.
    + apply Z.ltb_ge in H10.
      assert (Hq : 0 < n / 10) by (apply Z.div_str_pos; lia).
      assert (Hlt' : n / 10 < 10 ^ (Z.of_nat f + 1)).
      { apply Z.div_lt_upper_bound; [lia|].
        rewrite <- Z.pow_succ_r by lia.
        replace (Z.succ (Z.of_nat f + 1)) with (Z.of_nat (S f) + 1) by lia.
        exact Hlt. }
      specialize (IH (n / 10) Hq Hlt').
      pose proof (ndigits_aux_pos f (n / 10)) as Hk.
      set (k := ndigits_aux f (n / 10)) in *.
      replace (1 + k - 1) with (Z.succ (k - 1)) by lia.
      replace (1 + k) with (Z.succ k) by lia.
      rewrite !Z.pow_succ_r by lia.
      pose proof (Z.div_mod n 10 ltac:(lia)) as Hdm.
      pose proof (Z.mod_pos_bound n 10 ltac:(lia)) as Hm.
      lia.
Qed.

Lemma ndigits_pos (c : Z) : 1 <= ndigits c.
Proof. apply ndigits_aux_pos. Qed.

Lemma ndigits_bounds (c : Z) :
  c <> 0 -> 10 ^ (ndigits c - 1) <= Z.abs c < 10 ^ ndigits c.
Proof.
  intros Hc. unfold ndigits. apply ndigits_aux_bounds; [lia|].
  rewrite Z2Nat.id by apply Z.log2_up_nonneg.
  pose proof (Z.log2_log2_up_spec (Z.abs c) ltac:(lia)) as [_ Hle].
  pose proof (Z.log2_up_nonneg (Z.abs c)) as Hn.
  assert (2 ^ Z.log2_up (Z.abs c) <= 10 ^ Z.log2_up (Z.abs c))
    by (apply Z.pow_le_mono_l; lia).
  assert (10 ^ Z.log2_up (Z.abs c) < 10 ^ (Z.log2_up (Z.abs c) + 1))
    by (apply Z.pow_lt_mono_r; lia).
  lia.
Qed.

Lemma ndigits_unique (c k : Z) :
  10 ^ (k - 1) <= Z.abs c < 10 ^ k -> 1 <= k -> ndigits c = k.
Proof.
  intros [Hlo Hhi] Hk.
  assert (Hc : c <> 0).
  { intros ->. simpl in Hlo. pose proof (Z.pow_pos_nonneg 10 (k - 1)). lia. }
  pose proof (ndigits_bounds c Hc) as [Hlo' Hhi'].
  pose proof (ndigits_pos c) as Hp.
  destruct (Z.lt_trichotomy (ndigits c) k) as [Hlt|[Heq|Hgt]]; [|assumption|].
  - exfalso. assert (10 ^ ndigits c <= 10 ^ (k - 1))
      by (apply Z.pow_le_mono_r; lia). lia.
  - exfalso. assert (10 ^ k <= 10 ^ (ndigits c - 1))
      by (apply Z.pow_le_mono_r; lia). lia.
Qed.

Lemma ndigits_mul_pow (c n : Z) :
  c <> 0 -> 0 <= n -> ndigits (c * 10 ^ n) = ndigits c + n.
Proof.
  intros Hc Hn. pose proof (ndigits_bounds c Hc) as [Hlo Hhi].
  pose proof (ndigits_pos c) as Hp.
  assert (H10 : 0 < 10 ^ n) by (apply Z.pow_pos_nonneg; lia).
  apply ndigits_unique; [|lia].
  rewrite Z.abs_mul, (Z.abs_eq (10 ^ n)) by lia.
  replace (ndigits c + n - 1) with ((ndigits c - 1) + n) by lia.
  rewrite !Z.pow_add_r by lia. split.
  - apply Z.mul_le_mono_nonneg_r; lia.
  - apply Z.mul_lt_mono_pos_r; lia.
Qed.

Lemma ndigits_le_of_lt_pow (c k : Z) : Z.abs c < 10 ^ k -> 0 <= k -> ndigits c <= Z.max 1 k.
Proof.
  intros Hlt Hk. destruct (Z.eq_dec c 0) as [->|Hc]; [change (ndigits 0) with 1; lia|].
  pose proof (ndigits_bounds c Hc) as [Hlo _].
  destruct (Z_le_gt_dec (ndigits c) k) as [|Hgt]; [lia|]. exfalso.
  assert (10 ^ k <= 10 ^ (ndigits c - 1)) by (apply Z.pow_le_mono_r; lia). lia.
Qed.

Lemma ndigits_mono (a b : Z) : Z.abs a <= Z.abs b -> ndigits a <= ndigits b.
Proof.
  intros Hle. destruct (Z.eq_dec b 0) as [->|Hb].
  { assert (a = 0) by lia. subst. lia. }
  pose proof (ndigits_bounds b Hb) as [_ Hhi].
  pose proof (ndigits_pos b) as Hp.
  pose proof (ndigits_le_of_lt_pow a (ndigits b) ltac:(lia) ltac:(lia)). lia.
Qed.

End decimal_facts.

Section decimal_mod_facts.

Lemma ten_pow_prec_pos : 0 < 10 ^ prec.
Proof. reflexivity. Qed.

Lemma fix_zero (d : Decimal) :
  coeff d = 0 -> exists d', _fix d = Ok d' /\ coeff d' = 0.
Proof. intros H. unfold _fix. rewrite H. simpl. eauto. Qed.

Lemma round_half_even_ge (c shift : Z) : c / 10 ^ shift <= round_half_even c shift.
Proof.
  unfold round_half_even.
  destruct ((10 ^ shift <? 2 * (c mod 10 ^ shift))
            || ((2 * (c mod 10 ^ shift) =? 10 ^ shift) && Z.odd (c / 10 ^ shift))); lia.
Qed.

Lemma fix_nonzero (d : Decimal) :
  coeff d <> 0 -> in_context_range d ->
  exists d', _fix d = Ok d' /\ coeff d' <> 0.
Proof.
  intros Hc [Hlo Hhi]. unfold _fix, adjusted in *.
  destruct (coeff d =? 0) eqn:H0; [apply Z.eqb_eq in H0; contradiction|].
  set (nd := ndigits (coeff d)) in *.
  assert (Hmin : nd + exp d - prec < Etop) by (unfold Etop; lia).
  destruct (Etop <? nd + exp d - prec) eqn:H1; [apply Z.ltb_lt in H1; lia|].
  destruct (exp d <? Z.max (nd + exp d - prec) Etiny) eqn:H2; [|eauto].
  apply Z.ltb_lt in H2.
  assert (Hmax : Z.max (nd + exp d - prec) Etiny = nd + exp d - prec) by lia.
  rewrite Hmax in *.
  set (shift := nd + exp d - prec - exp d).
  assert (Hshift : 0 < shift) by (unfold shift; lia).
  set (c := round_half_even (Z.abs (coeff d)) shift).
  assert (Hcq : 10 ^ (prec - 1) <= c).
  { etransitivity; [|apply round_half_even_ge].
    apply Z.div_le_lower_bound; [apply Z.pow_pos_nonneg; lia|].
    rewrite Z.mul_comm, <- Z.pow_add_r by (unfold prec; lia).
    replace (prec - 1 + shift) with (nd - 1) by (unfold shift; lia).
    apply ndigits_bounds. exact Hc. }
  assert (Hp1 : 0 < 10 ^ (prec - 1)) by reflexivity.
  assert (Hsgn : Z.sgn (coeff d) <> 0) by (rewrite Z.sgn_null_iff; exact Hc).
  destruct (10 ^ prec <=? c) eqn:H3.
  - destruct (Etop <? nd + exp d - prec + 1) eqn:H4; [apply Z.ltb_lt in H4; lia|].
    eexists. split; [reflexivity|]. simpl.
    assert (10 ^ (prec - 1) <= c / 10).
    { apply Z.div_le_lower_bound; [lia|]. apply Z.leb_le in H3.
      change (10 * 10 ^ (prec - 1)) with (10 ^ prec). exact H3. }
    apply Z.neq_mul_0. split; [exact Hsgn | lia].
  - rewrite H1. eexists. split; [reflexivity|]. simpl.
    apply Z.neq_mul_0. split; [exact Hsgn | lia].
Qed.

Lemma scaled_neq_0 (d : Decimal) (e : Z) :
  e <= exp d -> coeff d <> 0 -> scaled d e <> 0.
Proof.
  intros He Hc. unfold scaled. apply Z.neq_mul_0. split; [exact Hc|].
  pose proof (Z.pow_pos_nonneg 10 (exp d - e)). lia.
Qed.

Lemma scaled_eq_0 (d : Decimal) (e : Z) : coeff d = 0 -> scaled d e = 0.
Proof. intros Hc. unfold scaled. now rewrite Hc. Qed.

Lemma adjusted_scaled (d : Decimal) (e : Z) :
  e <= exp d -> coeff d <> 0 ->
  adjusted d = e + ndigits (scaled d e) - 1.
Proof.
  intros He Hc. unfold adjusted, scaled.
  rewrite ndigits_mul_pow by (assumption || lia). lia.
Qed.

Lemma abs_lt_of_ndigits (A B : Z) :
  ndigits A + 2 <= ndigits B -> Z.abs A < Z.abs B.
Proof.
  intros H. pose proof (ndigits_pos A) as HA.
  assert (HB : B <> 0) by (intros ->; change (ndigits 0) with 1 in H; lia).
  pose proof (ndigits_bounds B HB) as [Hlo _].
  destruct (Z.eq_dec A 0) as [->|HA0]; [simpl; lia|].
  pose proof (ndigits_bounds A HA0) as [_ Hhi].
  assert (10 ^ ndigits A <= 10 ^ (ndigits B - 1)) by (apply Z.pow_le_mono_r; lia).
  lia.
Qed.

Lemma ndigits_of_small_multiple (A B k : Z) :
  A = k * B -> Z.abs k < 10 ^ prec -> A <> 0 ->
  ndigits A <= ndigits B + prec.
Proof.
  intros -> Hk HA.
  assert (HB : B <> 0) by (intros ->; lia).
  pose proof (ndigits_bounds B HB) as [_ Hhi].
  pose proof (ndigits_pos B) as Hp.
  assert (Hlt : Z.abs (k * B) < 10 ^ (ndigits B + prec)).
  { rewrite Z.abs_mul, Z.pow_add_r by (unfold prec; lia).
    rewrite (Z.mul_comm (10 ^ ndigits B)).
    assert (0 < Z.abs B) by lia.
    apply Z.le_lt_trans with (Z.abs k * 10 ^ ndigits B).
    - apply Z.mul_le_mono_nonneg_l; lia.
    - apply Z.mul_lt_mono_pos_r; [lia | exact Hk]. }
  pose proof (ndigits_le_of_lt_pow _ _ Hlt ltac:(unfold prec; lia)). unfold prec in *. lia.
Qed.

Lemma divmod_of_multiple (A B k : Z) :
  A = k * B -> B <> 0 ->
  Z.abs A / Z.abs B = Z.abs k /\ Z.abs A mod Z.abs B = 0.
Proof.
  intros -> HB. rewrite Z.abs_mul. split.
  - apply Z.div_mul. lia.
  - apply Z.mod_mul. lia.
Qed.

Lemma multiple_of_divmod (A B : Z) :
  B <> 0 -> Z.abs A mod Z.abs B = 0 ->
  exists k, A = k * B /\ Z.abs k = Z.abs A / Z.abs B.
Proof.
  intros HB Hm.
  assert (Hq : Z.abs A = Z.abs B * (Z.abs A / Z.abs B))
    by (apply Z.div_exact; [lia | exact Hm]).
  set (q := Z.abs A / Z.abs B) in *.
  assert (0 <= q) by (apply Z.div_pos; lia).
  destruct (Z.abs_spec A) as [[? HA]|[? HA]], (Z.abs_spec B) as [[? HB']|[? HB']];
    rewrite HA, HB' in Hq.
  - exists q. split; lia.
  - exists (- q). split; lia.
  - exists (- q). split; lia.
  - exists q. split; lia.
Qed.

Lemma small_multiple_dec (A B : Z) :
  B <> 0 ->
  (exists k, Z.abs k < 10 ^ prec /\ A = k * B) \/
  ~ (exists k, Z.abs k < 10 ^ prec /\ A = k * B).
Proof.
  intros HB.
  destruct (Z.eq_dec (Z.abs A mod Z.abs B) 0) as [Hr|Hr].
  - destruct (Z_lt_ge_dec (Z.abs A / Z.abs B) (10 ^ prec)) as [Hq|Hq].
    + left. destruct (multiple_of_divmod A B HB Hr) as (k & Hk & Hak).
      exists k. split; [lia | exact Hk].
    + right. intros (k & Hk & Hmul).
      destruct (divmod_of_multiple A B k Hmul HB) as [Hq' _]. lia.
  - right. intros (k & Hk & Hmul).
    destruct (divmod_of_multiple A B k Hmul HB) as [_ Hm]. contradiction.
Qed.

(** [Decimal.__mod__] within the range of the context: the remainder is
    zero exactly for the multiples whose quotient fits the precision; it
    is never an overflow. *)
Lemma dec_mod_spec (a b : Decimal) :
  in_context_range a -> in_context_range b -> coeff b <> 0 ->
  let e := Z.min (exp a) (exp b) in
  let small_multiple :=
    exists k, Z.abs k < 10 ^ prec /\ scaled a e = k * scaled b e in
  (small_multiple -> exists r, dec_mod a b = Ok r /\ coeff r = 0) /\
  (~ small_multiple ->
   dec_mod a b = Raise InvalidOperation \/
   exists r, dec_mod a b = Ok r /\ coeff r <> 0).
Proof.
  intros Ra Rb Hb. cbv zeta.
  set (e := Z.min (exp a) (exp b)).
  set (A := scaled a e). set (B := scaled b e).
  assert (HB : B <> 0) by (apply scaled_neq_0; [unfold e; lia | exact Hb]).
  assert (Hadjb : adjusted b = e + ndigits B - 1)
    by (apply adjusted_scaled; [unfold e; lia | exact Hb]).
  unfold dec_mod. destruct (coeff b =? 0) eqn:Hb0;
    [apply Z.eqb_eq in Hb0; contradiction|].
  unfold _divide_rem. fold e. fold A. fold B.
  destruct (coeff a =? 0) eqn:Ha0.
  { (* a zero dividend *)
    apply Z.eqb_eq in Ha0. simpl.
    assert (HA : A = 0) by (apply scaled_eq_0; exact Ha0).
    rewrite HA. split.
    - intros _. apply fix_zero. reflexivity.
    - intros Hn. exfalso. apply Hn. exists 0. split; [reflexivity | lia]. }
  apply Z.eqb_neq in Ha0.
  assert (HA : A <> 0) by (apply scaled_neq_0; [unfold e; lia | exact Ha0]).
  assert (Hadja : adjusted a = e + ndigits A - 1)
    by (apply adjusted_scaled; [unfold e; lia | exact Ha0]).
  rewrite Hadja, Hadjb. simpl orb.
  replace (e + ndigits A - 1 - (e + ndigits B - 1)) with (ndigits A - ndigits B) by lia.
  destruct (ndigits A - ndigits B <=? -2) eqn:H2.
  { (* the dividend is much smaller than the divisor *)
    apply Z.leb_le in H2. simpl.
    assert (Hlt : Z.abs A < Z.abs B) by (apply abs_lt_of_ndigits; lia).
    assert (Hfix : exists d', _fix {| coeff := A; exp := e |} = Ok d' /\ coeff d' <> 0).
    { apply fix_nonzero; [exact HA|]. split; simpl.
      - destruct Ra, Rb. unfold e. lia.
      - unfold adjusted. simpl. destruct Ra as [_ Ra]. lia. }
    split.
    - intros (k & Hk & Hmul). exfalso.
      destruct (divmod_of_multiple A B k Hmul HB) as [Hq _].
      rewrite Z.div_small in Hq by lia.
      assert (k = 0) by lia. subst k. lia.
    - intros _. right. exact Hfix. }
  apply Z.leb_gt in H2.
  destruct (ndigits A - ndigits B <=? prec) eqn:H3.
  - apply Z.leb_le in H3.
    destruct (Z.abs A / Z.abs B <? 10 ^ prec) eqn:H4.
    + apply Z.ltb_lt in H4. simpl.
      destruct (Z.eq_dec (Z.abs A mod Z.abs B) 0) as [Hr|Hr].
      * rewrite Hr, Z.mul_0_r. split.
        -- intros _. apply fix_zero. reflexivity.
        -- intros Hn. exfalso. apply Hn.
           destruct (multiple_of_divmod A B HB Hr) as (k & Hk & Hak).
           exists k. split; [lia | exact Hk].
      * assert (Hfix : exists d',
                   _fix {| coeff := Z.sgn (coeff a) * (Z.abs A mod Z.abs B); exp := e |}
                   = Ok d' /\ coeff d' <> 0).
        { apply fix_nonzero; simpl.
          - apply Z.neq_mul_0. split; [rewrite Z.sgn_null_iff; exact Ha0 | exact Hr].
          - split; simpl.
            + destruct Ra, Rb. unfold e. lia.
            + unfold adjusted. simpl.
              pose proof (Z.mod_pos_bound (Z.abs A) (Z.abs B) ltac:(lia)) as Hm.
              assert (Hnd : ndigits (Z.sgn (coeff a) * (Z.abs A mod Z.abs B))
                            <= ndigits B).
              { apply ndigits_mono. rewrite Z.abs_mul.
                assert (Z.abs (Z.sgn (coeff a)) <= 1)
                  by (destruct (coeff a); simpl; lia).
                nia. }
              destruct Rb as [_ Rb]. lia. }
        split.
        -- intros (k & Hk & Hmul). exfalso.
           destruct (divmod_of_multiple A B k Hmul HB) as [_ Hm]. contradiction.
        -- intros _. right. exact Hfix.
    + apply Z.ltb_ge in H4. simpl. split.
      * intros (k & Hk & Hmul). exfalso.
        destruct (divmod_of_multiple A B k Hmul HB) as [Hq _]. lia.
      * intros _. now left.
  - apply Z.leb_gt in H3. simpl. split.
    + intros (k & Hk & Hmul). exfalso.
      pose proof (ndigits_of_small_multiple A B k Hmul Hk HA). lia.
    + intros _. now left.
Qed.

End decimal_mod_facts.

Section multiple_of_facts.

Local Open Scope Q_scope.

Lemma is_zero_int (n : Z) : is_zero (Int n) = true <-> n = 0%Z.
Proof. unfold is_zero, Numbers.eqb. simpl. destruct (Z.compare_spec n 0); split; (congruence || lia). Qed.

Lemma is_zero_dec (d : Decimal) : is_zero (Dec d) = true <-> coeff d = 0%Z.
Proof.
  unfold is_zero. rewrite eqb_value. simpl. unfold dec_value. split.
  - intros H. apply Qmult_integral in H as [H|H].
    + now apply (inject_Z_injective (coeff d) 0).
    + exfalso. revert H. apply Qpower_not_0, ten_neq_0.
  - intros ->. ring.
Qed.

Lemma multiple_scaled (x m : Number) (k : Z) :
  let a := as_decimal x in
  let b := as_decimal m in
  let e := Z.min (exp a) (exp b) in
  num_value x == inject_Z k * num_value m <-> scaled a e = (k * scaled b e)%Z.
Proof.
  cbv zeta. rewrite <- (value_as_decimal x), <- (value_as_decimal m).
  set (a := as_decimal x). set (b := as_decimal m).
  set (e := Z.min (exp a) (exp b)).
  rewrite (dec_value_scaled a e), (dec_value_scaled b e) by (unfold e; lia).
  rewrite Qmult_assoc, <- inject_Z_mult.
  rewrite Qmult_inj_r by (apply Qpower_not_0, ten_neq_0).
  apply inject_Z_injective.
Qed.

Lemma small_multiple_scaled (x m : Number) :
  small_multiple_of x m <->
  exists k, (Z.abs k < 10 ^ prec)%Z /\
            scaled (as_decimal x) (Z.min (exp (as_decimal x)) (exp (as_decimal m)))
            = (k * scaled (as_decimal m)
                     (Z.min (exp (as_decimal x)) (exp (as_decimal m))))%Z.
Proof.
  unfold small_multiple_of. split; intros (k & Hk & H); exists k; split; auto;
    now apply (multiple_scaled x m k).
Qed.

Lemma positive_coeff (m : Number) : 0 < num_value m -> coeff (as_decimal m) <> 0%Z.
Proof.
  intros Hpos Hc. rewrite <- value_as_decimal in Hpos.
  unfold dec_value in Hpos. rewrite Hc in Hpos.
  apply (Qlt_irrefl 0). rewrite Qmult_0_l in Hpos. exact Hpos.
Qed.

Lemma py_mod_decimal (x m : Number) :
  both_int x m = false ->
  py_mod x m = do r <- dec_mod (as_decimal x) (as_decimal m); Ok (Dec r).
Proof. destruct x, m; simpl; intros H; (discriminate || reflexivity). Qed.

End multiple_of_facts.

(** C7, as the code has it: [multipleOf] looks at what [instance %
    self.json] gives: a zero remainder leaves the scope as it is, another
    remainder is a failure, and [InvalidOperation] is caught and recorded as
    a failure, never passed on.  For two ints that is success exactly on the
    multiples.  As soon as one operand is a decimal (both within the range
    of the context) it is success exactly on the multiples whose quotient
    has at most 28 digits: a multiple with a longer quotient makes the
    remainder impossible and is rejected. *)
Theorem multipleOf_evaluate_spec
  (m : Number) (instance : JSON) (x : Number) (scope : Scope) :
  value instance = VNum x ->
  (0 < num_value m)%Q ->
  let out := validation.MultipleOfKeyword.evaluate (VNum m) instance scope in
  let not_a_multiple :=
    fail instance (Msg "The value must be a multiple of {self.json}" [VNum m]) scope in
  let invalid_operation :=
    fail instance
         (Msg "Invalid operation: {instance} % {self.json}" [VNum x; VNum m]) scope in
  (forall r, py_mod x m = Ok r ->
             out = Ok (if is_zero r then scope else not_a_multiple)) /\
  (py_mod x m = Raise InvalidOperation -> out = Ok invalid_operation) /\
  out <> Raise InvalidOperation /\
  (both_int x m = true ->
   (out = Ok scope <-> multiple_of x m) /\
   (~ multiple_of x m -> out = Ok not_a_multiple)) /\
  (both_int x m = false ->
   in_context_range (as_decimal x) -> in_context_range (as_decimal m) ->
   (out = Ok scope <-> small_multiple_of x m) /\
   (~ small_multiple_of x m -> out = Ok not_a_multiple \/ out = Ok invalid_operation)).
Proof.
  intros Hval Hpos. cbv zeta.
  unfold validation.MultipleOfKeyword.evaluate, validation.MultipleOfKeyword.json_mod.
  rewrite Hval.
  split; [|split; [|split; [|split]]].
  - intros r ->. now destruct (is_zero r).
  - intros ->. reflexivity.
  - destruct (py_mod x m) as [r|e].
    + destruct (negb (is_zero r)); discriminate.
    + destruct e; discriminate.
  - intros Hint. destruct x as [a|], m as [b|]; try discriminate.
    assert (Hb : b <> 0).
    { intros ->. simpl in Hpos. apply (Qlt_irrefl 0). exact Hpos. }
    simpl. destruct (b =? 0) eqn:Hb0; [apply Z.eqb_eq in Hb0; contradiction|].
    assert (Hiff : is_zero (Int (a mod b)) = true <-> multiple_of (Int a) (Int b)).
    { rewrite is_zero_int. unfold multiple_of. simpl. split.
      - intros Hm. exists (a / b). rewrite <- inject_Z_mult.
        apply inject_Z_injective.
        pose proof (Z.div_mod a b Hb). lia.
      - intros [k Hk]. rewrite <- inject_Z_mult in Hk.
        assert (Ha : a = (k * b)%Z) by (apply inject_Z_injective; exact Hk).
        rewrite Ha. apply Z.mod_mul. exact Hb. }
    destruct (is_zero (Int (a mod b))) eqn:Hz; simpl.
    + split; [|intros Hn; exfalso; apply Hn, Hiff; reflexivity].
      split; [intros _; now apply Hiff | reflexivity].
    + split; [|reflexivity]. split.
      * intros H. exfalso. inversion H as [H']. revert H'. apply fail_neq.
      * intros H. apply Hiff in H. discriminate.
  - intros Hdec Rx Rm.
    rewrite (py_mod_decimal x m Hdec).
    pose proof (dec_mod_spec (as_decimal x) (as_decimal m) Rx Rm (positive_coeff m Hpos))
      as [Hyes Hno].
    cbv zeta in Hyes, Hno. rewrite <- small_multiple_scaled in Hyes, Hno.
    split.
    + split.
      * intros Hout.
        destruct (dec_mod (as_decimal x) (as_decimal m)) as [r|e] eqn:Hmod; simpl in Hout.
        -- destruct (is_zero (Dec r)) eqn:Hz; simpl in Hout.
           ++ apply is_zero_dec in Hz.
              destruct (small_multiple_dec
                          (scaled (as_decimal x)
                                  (Z.min (exp (as_decimal x)) (exp (as_decimal m))))
                          (scaled (as_decimal m)
                                  (Z.min (exp (as_decimal x)) (exp (as_decimal m)))))
                as [Hs|Hs].
              { apply scaled_neq_0; [lia | apply positive_coeff; exact Hpos]. }
              { apply small_multiple_scaled. exact Hs. }
              rewrite <- small_multiple_scaled in Hs.
              exfalso. destruct (Hno Hs) as [Hinv|(r' & Hr' & Hc)]; congruence.
           ++ exfalso. inversion Hout as [H']. revert H'. apply fail_neq.
        -- exfalso. destruct e; try discriminate.
           inversion Hout as [H']. revert H'. apply fail_neq.
      * intros Hs. destruct (Hyes Hs) as (r & -> & Hc). simpl.
        apply is_zero_dec in Hc. now rewrite Hc.
    + intros Hs. destruct (Hno Hs) as [->|(r & -> & Hc)]; simpl.
      * now right.
      * left. destruct (is_zero (Dec r)) eqn:Hz; [|reflexivity].
        apply is_zero_dec in Hz. contradiction.
Qed.

Lemma multipleOf_witness :
  let instance := mkJSON (VNum (Dec (mkDecimal 3 (-1)))) [] false in
  validation.MultipleOfKeyword.evaluate (VNum (Dec (mkDecimal 1 (-1)))) instance new_scope
  = Ok new_scope.
Proof.
  cbv zeta.
  pose proof (multipleOf_evaluate_spec
                (Dec (mkDecimal 1 (-1)))
                (mkJSON (VNum (Dec (mkDecimal 3 (-1)))) [] false)
                (Dec (mkDecimal 3 (-1))) new_scope eq_refl eq_refl) as H.
  cbv zeta in H. destruct H as (_ & _ & _ & _ & H).
  apply H.
  - reflexivity.
  - split; vm_compute; [discriminate | reflexivity].
  - split; vm_compute; [discriminate | reflexivity].
  - exists 3. split; [reflexivity|]. vm_compute. reflexivity.
Defined.

(** The claim, as it is written, fails: [1E+30] is an exact multiple of 1,
    and [multipleOf] rejects it, because the quotient has more than 28
    digits and the remainder raises [InvalidOperation]. *)
Lemma multipleOf_rejects_a_multiple :
  let x := Dec (mkDecimal 1 30) in
  let instance := mkJSON (VNum x) [] false in
  multiple_of x (Int 1) /\
  validation.MultipleOfKeyword.evaluate (VNum (Int 1)) instance new_scope =
  Ok (fail instance
           (Msg "Invalid operation: {instance} % {self.json}" [VNum x; VNum (Int 1)])
           new_scope).
Proof.
  cbv zeta. split.
  - exists (10 ^ 30). vm_compute. reflexivity.
  - vm_compute. reflexivity.
Qed.

Lemma schema_cache_witness :
  let uri := mkURI "https://example.com/a" None true true in
  let other := mkURI "https://example.com/b" None true true in
  let cat := add_schema other (BoolSchema false) default (mkCatalogue [] ∅) in
  cache_get (add_schema uri (BoolSchema true) default cat) default other =
  cache_get cat default other.
Proof.
  cbv zeta.
  destruct (proj1 (proj2 (proj2 schema_cache_one_schema_per_key))
              (mkURI "https://example.com/a" None true true) (BoolSchema true) default
              (add_schema (mkURI "https://example.com/b" None true true)
                          (BoolSchema false) default (mkCatalogue [] ∅)))
    as (_ & _ & H & _).
  apply H. intros Heq. inversion Heq.
Defined.

(** * Further properties of the keywords *)

Lemma fail_cases (instance : JSON) (msg : Message) (scope : Scope) (b : bool) :
  (if b then fail instance msg scope else scope) = scope <-> b = false.
Proof.
  destruct b; split; try congruence; try reflexivity.
  intros H. exfalso. revert H. apply fail_neq.
Qed.

Section bound_facts.

Local Open Scope Q_scope.

Lemma gtb_false_value (x y : Number) :
  Numbers.gtb x y = false <-> num_value x <= num_value y.
Proof.
  rewrite <- leb_value. unfold Numbers.gtb. rewrite ltb_geb.
  unfold Numbers.geb. destruct (Numbers.leb x y); simpl; split; congruence.
Qed.

Lemma ltb_false_value (x y : Number) :
  Numbers.ltb x y = false <-> num_value y <= num_value x.
Proof. apply (gtb_false_value y x). Qed.

Lemma geb_false_value (x y : Number) :
  Numbers.geb x y = false <-> num_value x < num_value y.
Proof.
  rewrite <- ltb_value, ltb_geb. destruct (Numbers.geb x y); simpl; split; congruence.
Qed.

Lemma leb_false_value (x y : Number) :
  Numbers.leb x y = false <-> num_value y < num_value x.
Proof. apply (geb_false_value y x). Qed.

End bound_facts.

(** X1: on a number instance, [maximum], [exclusiveMaximum], [minimum] and
    [exclusiveMinimum] pass exactly when the value is [<=], [<], [>=], [>]
    the keyword's value, compared exactly across ints and decimals; with one
    and the same value, [minimum] and [maximum] together accept exactly the
    numbers equal to it, and the two exclusive bounds together accept
    nothing. *)
Theorem bound_keywords_spec
  (limit x : Number) (instance : JSON) (scope : Scope) :
  value instance = VNum x ->
  let passes (evaluate : Number -> JSON -> Scope -> Scope) :=
    evaluate limit instance scope = scope in
  (passes validation.MaximumKeyword.evaluate <-> (num_value x <= num_value limit)%Q) /\
  (passes validation.ExclusiveMaximumKeyword.evaluate <->
   (num_value x < num_value limit)%Q) /\
  (passes validation.MinimumKeyword.evaluate <-> (num_value limit <= num_value x)%Q) /\
  (passes validation.ExclusiveMinimumKeyword.evaluate <->
   (num_value limit < num_value x)%Q) /\
  (passes validation.MinimumKeyword.evaluate /\ passes validation.MaximumKeyword.evaluate
   <-> (num_value x == num_value limit)%Q) /\
  ~ (passes validation.ExclusiveMinimumKeyword.evaluate /\
     passes validation.ExclusiveMaximumKeyword.evaluate).
Proof.
  intros Hval. cbv zeta.
  unfold validation.MaximumKeyword.evaluate, validation.ExclusiveMaximumKeyword.evaluate,
    validation.MinimumKeyword.evaluate, validation.ExclusiveMinimumKeyword.evaluate.
  rewrite Hval. rewrite !fail_cases.
  rewrite gtb_false_value, geb_false_value, ltb_false_value, leb_false_value.
  split; [reflexivity|]. split; [reflexivity|]. split; [reflexivity|].
  split; [reflexivity|]. split.
  - split.
    + intros [H1 H2]. now apply Qle_antisym.
    + intros Heq. rewrite Heq. split; apply Qle_refl.
  - intros [H1 H2]. apply (Qlt_irrefl (num_value x)).
    eapply Qlt_trans; eassumption.
Qed.

Lemma bound_keywords_witness :
  let instance := mkJSON (VNum (Dec (mkDecimal 150 (-2)))) [] false in
  validation.MaximumKeyword.evaluate (Dec (mkDecimal 15 (-1))) instance new_scope
  = new_scope.
Proof.
  cbv zeta.
  apply (proj1 (bound_keywords_spec (Dec (mkDecimal 15 (-1))) (Dec (mkDecimal 150 (-2)))
                  (mkJSON (VNum (Dec (mkDecimal 150 (-2)))) [] false) new_scope eq_refl)).
  vm_compute. discriminate.
Defined.

(** X2: [maxItems] and [minItems] compare the number of elements of the
    array with the keyword's value, [maxProperties] and [minProperties] the
    number of properties of the object; a minimum of 0 (the default) never
    fails, and a minimum and a maximum of the same value accept exactly the
    arrays, or objects, of that size. *)
Theorem size_keywords_spec (limit : Number) (instance : JSON) (scope : Scope) :
  let n := validation.py_len (value instance) in
  let passes (evaluate : Number -> JSON -> Scope -> Scope) :=
    evaluate limit instance scope = scope in
  (forall items, value instance = VArr items -> n = Int (Z.of_nat (length items))) /\
  (forall props, value instance = VObj props -> n = Int (Z.of_nat (length props))) /\
  (passes validation.MaxItemsKeyword.evaluate <-> (num_value n <= num_value limit)%Q) /\
  (passes validation.MinItemsKeyword.evaluate <-> (num_value limit <= num_value n)%Q) /\
  (passes validation.MaxPropertiesKeyword.evaluate <->
   (num_value n <= num_value limit)%Q) /\
  (passes validation.MinPropertiesKeyword.evaluate <->
   (num_value limit <= num_value n)%Q) /\
  ((num_value limit <= 0)%Q ->
   passes validation.MinItemsKeyword.evaluate /\
   passes validation.MinPropertiesKeyword.evaluate) /\
  (passes validation.MinItemsKeyword.evaluate /\ passes validation.MaxItemsKeyword.evaluate
   <-> (num_value n == num_value limit)%Q).
Proof.
  cbv zeta.
  unfold validation.MaxItemsKeyword.evaluate, validation.MinItemsKeyword.evaluate,
    validation.MaxPropertiesKeyword.evaluate, validation.MinPropertiesKeyword.evaluate.
  rewrite !fail_cases. rewrite gtb_false_value, ltb_false_value.
  assert (Hn : (0 <= num_value (validation.py_len (value instance)))%Q).
  { destruct (value instance); simpl; try apply Qle_refl;
      unfold Qle; simpl; lia. }
  split; [intros items ->; reflexivity|].
  split; [intros props ->; reflexivity|].
  split; [reflexivity|]. split; [reflexivity|].
  split; [reflexivity|]. split; [reflexivity|]. split.
  - intros Hz. split; eapply Qle_trans; eassumption.
  - split.
    + intros [H1 H2]. now apply Qle_antisym.
    + intros Heq. rewrite Heq. split; apply Qle_refl.
Qed.

Lemma required_missing_nil (names : list string) (props : list (string * JSONValue)) :
  validation.RequiredKeyword.missing names props = [] <->
  forall name, In name names -> validation.has_key name props = true.
Proof.
  unfold validation.RequiredKeyword.missing. induction names as [|n names IH]; simpl.
  - split; [intros _ name [] | reflexivity].
  - destruct (validation.has_key n props) eqn:Hn; simpl.
    + rewrite IH. split.
      * intros H name [<-|Hin]; auto.
      * intros H name Hin. apply H. now right.
    + split; [discriminate|]. intros H.
      specialize (H n (or_introl eq_refl)). congruence.
Qed.

Lemma required_passes_iff (names : list string) (instance : JSON)
      (props : list (string * JSONValue)) (scope : Scope) :
  value instance = VObj props ->
  validation.RequiredKeyword.evaluate names instance scope = scope <->
  forall name, In name names -> validation.has_key name props = true.
Proof.
  intros Hval. unfold validation.RequiredKeyword.evaluate. rewrite Hval.
  rewrite <- required_missing_nil.
  destruct (validation.RequiredKeyword.missing names props) as [|m ms].
  - split; reflexivity.
  - split; [|discriminate]. intros H. exfalso. revert H. apply fail_neq.
Qed.

(** X3: on an object, [required] passes exactly when every listed name is
    a key of the object; otherwise it records one error, whose list holds
    exactly the listed names that are no keys, in the order of the list.
    Requiring two lists at once is requiring each of them, and adding a
    property to an object that passes keeps it passing. *)
Theorem required_spec
  (names : list string) (instance : JSON) (props : list (string * JSONValue))
  (scope : Scope) :
  value instance = VObj props ->
  let missing := validation.RequiredKeyword.missing names props in
  let passes names (instance : JSON) :=
    validation.RequiredKeyword.evaluate names instance scope = scope in
  (passes names instance <->
   forall name, In name names -> validation.has_key name props = true) /\
  (forall name, In name missing <->
                In name names /\ validation.has_key name props = false) /\
  (missing <> [] ->
   validation.RequiredKeyword.evaluate names instance scope =
   fail instance (Msg "The object is missing required properties {missing}"
                      [VArr (List.map VStr missing)]) scope) /\
  (forall names', passes (names ++ names') instance <->
                  passes names instance /\ passes names' instance) /\
  (forall key v,
      passes names instance ->
      passes names (mkJSON (VObj ((key, v) :: props)) (path instance) false)).
Proof.
  intros Hval. cbv zeta. split; [now apply required_passes_iff|]. split; [|split; [|split]].
  - intros name. unfold validation.RequiredKeyword.missing.
    rewrite List.filter_In, negb_true_iff. reflexivity.
  - intros Hne. unfold validation.RequiredKeyword.evaluate. rewrite Hval.
    destruct (validation.RequiredKeyword.missing names props); [contradiction|reflexivity].
  - intros names'. rewrite !(required_passes_iff _ instance props scope Hval). split.
    + intros H. split; intros name Hin; apply H, in_or_app; auto.
    + intros [H1 H2] name Hin. apply in_app_or in Hin as [Hin|Hin]; auto.
  - intros key v. rewrite (required_passes_iff _ instance props scope Hval).
    rewrite (required_passes_iff names
               (mkJSON (VObj ((key, v) :: props)) (path instance) false)
               ((key, v) :: props) scope eq_refl).
    intros H name Hin. specialize (H name Hin).
    unfold validation.has_key in *. simpl.
    destruct (String.eqb name key); [reflexivity | exact H].
Qed.

Lemma required_witness :
  let instance := mkJSON (VObj [("id", VNum (Int 7)); ("name", VStr "x")]) [] false in
  validation.RequiredKeyword.evaluate ["name"; "id"] instance new_scope = new_scope.
Proof.
  cbv zeta.
  apply (proj1 (required_spec ["name"; "id"]
                  (mkJSON (VObj [("id", VNum (Int 7)); ("name", VStr "x")]) [] false)
                  _ new_scope eq_refl)).
  intros name [<-|[<-|[]]]; reflexivity.
Defined.

Lemma dependentRequired_missing_nil
      (deps : list (string * list string)) (props : list (string * JSONValue)) :
  validation.DependentRequiredKeyword.missing deps props = [] <->
  forall name dependents,
    In (name, dependents) deps -> validation.has_key name props = true ->
    forall dep, In dep dependents -> validation.has_key dep props = true.
Proof.
  induction deps as [|[n ds] deps IH]; simpl.
  - split; [intros _ name dependents [] | reflexivity].
  - destruct (validation.has_key n props) eqn:Hn.
    + pose proof (required_missing_nil ds props) as Hreq.
      unfold validation.RequiredKeyword.missing in Hreq.
      destruct (List.filter (fun dep => negb (validation.has_key dep props)) ds)
        as [|m ms] eqn:Hf.
      * rewrite IH. split.
        -- intros H name dependents [Heq|Hin] Hk.
           ++ inversion Heq; subst. now apply Hreq.
           ++ now apply (H name dependents).
        -- intros H name dependents Hin. apply H. now right.
      * split; [discriminate|]. intros H. exfalso.
        assert (Hall : forall dep, In dep ds -> validation.has_key dep props = true)
          by (apply (H n ds); [now left | exact Hn]).
        apply Hreq in Hall. discriminate.
    + rewrite IH. split.
      * intros H name dependents [Heq|Hin] Hk.
        -- inversion Heq; subst. congruence.
        -- now apply (H name dependents).
      * intros H name dependents Hin. apply H. now right.
Qed.

(** X4: on an object, [dependentRequired] passes exactly when, for every
    listed property that is present, all of its dependents are present too;
    for one present property it is [required] on the dependents, and it
    passes on every object that has none of the listed properties. *)
Theorem dependentRequired_spec
  (deps : list (string * list string)) (instance : JSON)
  (props : list (string * JSONValue)) (scope : Scope) :
  value instance = VObj props ->
  (validation.DependentRequiredKeyword.evaluate deps instance scope = scope <->
   forall name dependents,
     In (name, dependents) deps -> validation.has_key name props = true ->
     forall dep, In dep dependents -> validation.has_key dep props = true) /\
  (forall name dependents,
      validation.has_key name props = true ->
      (validation.DependentRequiredKeyword.evaluate [(name, dependents)] instance scope
       = scope <->
       validation.RequiredKeyword.evaluate dependents instance scope = scope)) /\
  ((forall name dependents,
       In (name, dependents) deps -> validation.has_key name props = false) ->
   validation.DependentRequiredKeyword.evaluate deps instance scope = scope).
Proof.
  intros Hval.
  assert (Hiff : forall deps,
             validation.DependentRequiredKeyword.evaluate deps instance scope = scope <->
             validation.DependentRequiredKeyword.missing deps props = []).
  { intros deps'. unfold validation.DependentRequiredKeyword.evaluate. rewrite Hval.
    destruct (validation.DependentRequiredKeyword.missing deps' props).
    - split; reflexivity.
    - split; [|discriminate]. intros H. exfalso. revert H. apply fail_neq. }
  split; [|split].
  - rewrite Hiff. apply dependentRequired_missing_nil.
  - intros name dependents Hk.
    rewrite Hiff, dependentRequired_missing_nil.
    rewrite (required_passes_iff _ instance props scope Hval). split.
    + intros H dep Hin. apply (H name dependents); [now left | exact Hk | exact Hin].
    + intros H n ds [Heq|[]] _. inversion Heq; subst. exact H.
  - intros Hnone. rewrite Hiff, dependentRequired_missing_nil.
    intros name dependents Hin Hk. rewrite (Hnone name dependents Hin) in Hk.
    discriminate.
Qed.

Lemma dependentRequired_witness :
  let instance := mkJSON (VObj [("name", VStr "x")]) [] false in
  validation.DependentRequiredKeyword.evaluate
    [("credit_card", ["billing_address"])] instance new_scope = new_scope.
Proof.
  cbv zeta.
  apply (proj2 (proj2 (dependentRequired_spec [("credit_card", ["billing_address"])]
                         (mkJSON (VObj [("name", VStr "x")]) [] false)
                         _ new_scope eq_refl))).
  intros name dependents [Heq|[]]. inversion Heq; subst. reflexivity.
Defined.

(** X5: [minContains] works on its own scope and on the errors of the
    [contains] sibling only: no annotation of any scope changes, every
    other sibling is left as it was, the [contains] sibling keeps its
    annotations and never gains an error; with no [contains] sibling, or
    with an invalid [maxContains] sibling, no sibling changes at all. *)
Theorem minContains_frame (limit : Number) (instance : JSON) (fr : Frame) :
  let fr' := validation.MinContainsKeyword.evaluate limit instance fr in
  annotations (scope fr') = annotations (scope fr) /\
  (forall key, key <> "contains" -> siblings fr' !! key = siblings fr !! key) /\
  (forall contains,
      siblings fr !! "contains" = Some contains ->
      exists contains',
        siblings fr' !! "contains" = Some contains' /\
        annotations contains' = annotations contains /\
        (errors contains' = errors contains \/ errors contains' = [])) /\
  (siblings fr !! "contains" = None -> fr' = fr) /\
  (forall max_contains,
      siblings fr !! "maxContains" = Some max_contains ->
      valid max_contains = false -> siblings fr' = siblings fr).
Proof.
  cbv zeta. unfold validation.MinContainsKeyword.evaluate, sibling.
  destruct (siblings fr !! "contains") as [c|] eqn:Hc.
  2:{ repeat split; auto. intros c Hc'. discriminate. }
  set (ok := Numbers.geb (validation.MinContainsKeyword.contains_count c) limit).
  set (cleared := {| scope := scope fr;
                     siblings := <["contains" := clear_errors c]> (siblings fr) |}).
  assert (Hcases :
            (if ok && negb (valid c)
             then match siblings fr !! "maxContains" with
                  | Some max_contains => if valid max_contains then cleared else fr
                  | None => cleared
                  end
             else fr) = fr \/
            ((if ok && negb (valid c)
              then match siblings fr !! "maxContains" with
                   | Some max_contains => if valid max_contains then cleared else fr
                   | None => cleared
                   end
              else fr) = cleared /\
             forall mc, siblings fr !! "maxContains" = Some mc -> valid mc = true)).
  { destruct (ok && negb (valid c)); [|now left].
    destruct (siblings fr !! "maxContains") as [mc|].
    - destruct (valid mc) eqn:Hv; [right | now left].
      split; [reflexivity|]. intros mc' Heq. congruence.
    - right. split; [reflexivity|]. intros mc' Heq. discriminate. }
  destruct Hcases as [->|[-> Hmc]].
  - assert (Hsib : siblings (if negb ok
                             then fail_frame instance
                                    (Msg "The array has too few elements matching the 'contains' subschema (minimum {self.json})" [VNum limit]) fr
                             else fr) = siblings fr)
      by (destruct (negb ok); reflexivity).
    rewrite Hsib. split; [now destruct (negb ok)|].
    split; [reflexivity|]. split; [|split; [discriminate | reflexivity]].
    intros c' Hc'. exists c'. rewrite <- Hc'. auto.
  - assert (Hsib : siblings (if negb ok
                             then fail_frame instance
                                    (Msg "The array has too few elements matching the 'contains' subschema (minimum {self.json})" [VNum limit]) cleared
                             else cleared) = siblings cleared)
      by (destruct (negb ok); reflexivity).
    rewrite Hsib. split; [now destruct (negb ok)|]. split; [|split; [|split]].
    + intros key Hne. simpl. now apply lookup_insert_ne.
    + intros c' Hc'. inversion Hc'; subst c'. exists (clear_errors c). simpl.
      rewrite lookup_insert_eq. auto.
    + discriminate.
    + intros mc Hm Hv. rewrite (Hmc mc Hm) in Hv. discriminate.
Qed.

(** * Further properties of the catalogue *)

Lemma load_json_invalid
      (json_loadf : Path -> result JSONValue) (cat : Catalogue) (uri : URI) :
  validate uri = false ->
  load_json json_loadf cat uri = (Raise (CatalogueError "URIError"), []).
Proof. intros Hv. unfold load_json. now rewrite Hv. Qed.

Lemma load_json_no_base
      (json_loadf : Path -> result JSONValue) (cat : Catalogue) (uri : URI) :
  validate uri = true ->
  (forall base_uri base_dir,
      In (base_uri, base_dir) (_directories cat) ->
      String.prefix (str base_uri) (str uri) = false) ->
  load_json json_loadf cat uri
  = (Raise (CatalogueError "File not found for '{uri}'"), []).
Proof.
  intros Hv Hnone. unfold load_json. rewrite Hv. simpl.
  assert (Hc : candidates cat (str uri) = []).
  { destruct (candidates cat (str uri)) as [|[b d] cs] eqn:Hc; [reflexivity|].
    assert (Hin : In (b, d) (candidates cat (str uri))) by (rewrite Hc; now left).
    apply In_candidates in Hin as (u & Hu & <- & Hp).
    rewrite (Hnone u d Hu) in Hp. discriminate. }
  now rewrite Hc.
Qed.


(** X6: [load_json] does not touch the file system for an invalid URI or
    for a URI that no registered base URI is a prefix of: it raises
    [CatalogueError] at once.  It never hands more than two paths to
    [json_loadf], it never lets a [FileNotFoundError] out, and a document it
    returns is what [json_loadf] gave for the path it tried last. *)
Theorem load_json_failures
  (json_loadf : Path -> result JSONValue) (cat : Catalogue) (uri : URI) :
  let out := load_json json_loadf cat uri in
  (validate uri = false -> out = (Raise (CatalogueError "URIError"), [])) /\
  (validate uri = true ->
   (forall base_uri base_dir,
       In (base_uri, base_dir) (_directories cat) ->
       String.prefix (str base_uri) (str uri) = false) ->
   out = (Raise (CatalogueError "File not found for '{uri}'"), [])) /\
  (length out.2 <= 2)%nat /\
  out.1 <> Raise FileNotFoundError /\
  (forall doc, out.1 = Ok doc ->
               exists p, last out.2 = Some p /\ json_loadf p = Ok doc).
Proof.
  cbv zeta. unfold load_json.
  destruct (validate uri) eqn:Hv; simpl.
  2:{ repeat split; try discriminate; auto. }
  split; [discriminate|]. split.
  { intros _ Hnone.
    assert (Hc : candidates cat (str uri) = []).
    { destruct (candidates cat (str uri)) as [|[b d] cs] eqn:Hc; [reflexivity|].
      assert (Hin : In (b, d) (candidates cat (str uri))) by (rewrite Hc; now left).
      apply In_candidates in Hin as (u & Hu & <- & Hp).
      rewrite (Hnone u d Hu) in Hp. discriminate. }
    now rewrite Hc. }
  destruct (sort_desc (candidates cat (str uri))) as [|[b d] rest]; simpl.
  { repeat split; try discriminate; auto. }
  set (filepath := joinpath d (string_drop (String.length b) (str uri))).
  destruct (json_loadf filepath) as [doc|e] eqn:H1.
  { simpl. repeat split; try discriminate; auto.
    intros doc' Heq. inversion Heq; subst. exists filepath. auto. }
  assert (Hother :
            e <> FileNotFoundError ->
            (length (Raise e : result JSONValue, [filepath]).2 <= 2)%nat /\
            (Raise e : result JSONValue, [filepath]).1 <> Raise FileNotFoundError /\
            (forall doc, (Raise e : result JSONValue, [filepath]).1 = Ok doc ->
                         exists p, last (Raise e : result JSONValue, [filepath]).2 = Some p
                                   /\ json_loadf p = Ok doc)).
  { intros Hne. simpl. repeat split; auto; congruence. }
  destruct e; try (apply Hother; discriminate). clear Hother.
  destruct (with_suffix ".json" filepath) as [filepath'|e'] eqn:Hs.
  2:{ simpl. repeat split; auto; try discriminate.
      unfold with_suffix in Hs. destruct (rev (parts filepath)); inversion Hs.
      discriminate. }
  destruct (json_loadf filepath') as [doc|e] eqn:H2.
  { simpl. repeat split; try discriminate; auto.
    intros doc' Heq. inversion Heq; subst. exists filepath'. auto. }
  destruct e; simpl; repeat split; auto; discriminate.
Qed.

(** X7: when the URI is no exact cache hit, whatever [get_schema] returns
    is a [JSONSchema]; and when such a URI has no fragment and its document
    cannot be loaded, [get_schema] raises what [load_json] raised and leaves
    the catalogue as it was, without constructing a schema. *)
Theorem get_schema_on_miss
  (json_loadf : Path -> result JSONValue)
  (JSONSchema_new : JSONValue -> Catalogue -> Session -> URI -> option URI ->
                    result Doc * Catalogue)
  (uri : URI) (metaschema_uri : option URI) (session : Session) (cat : Catalogue) :
  first_cached cat (try_caches session) uri = None ->
  let out := get_schema json_loadf JSONSchema_new uri metaschema_uri session cat in
  (forall schema, out.1 = Ok schema -> is_JSONSchema schema = true) /\
  (forall e,
      fragment uri = None ->
      (load_json json_loadf cat uri).1 = Raise e ->
      out = (Raise e, cat)) /\
  (fragment uri = None ->
   (forall base_uri base_dir,
       In (base_uri, base_dir) (_directories cat) ->
       String.prefix (str base_uri) (str uri) = false) ->
   exists msg, out = (Raise (CatalogueError msg), cat)).
Proof.
  intros Hmiss. cbv zeta. unfold get_schema. rewrite Hmiss.
  assert (Hcopy : fragment uri = None -> copy_no_fragment uri = uri).
  { destruct uri as [b f s n]. simpl. now intros ->. }
  assert (Hload : forall e,
             fragment uri = None ->
             (load_json json_loadf cat uri).1 = Raise e ->
             (let '(schema, cat0) :=
                base_schema json_loadf JSONSchema_new uri metaschema_uri session cat in
              match schema with
              | Ok schema0 => (descend uri schema0, cat0)
              | Raise e0 => (Raise e0, cat0)
              end) = (Raise e, cat)).
  { intros e Hf Hl. unfold base_schema. rewrite Hf, (Hcopy Hf).
    unfold fst in *. simpl in Hl. now rewrite Hl. }
  split; [|split].
  - destruct (base_schema json_loadf JSONSchema_new uri metaschema_uri session cat)
      as [[s|e] cat'']; simpl; [|discriminate].
    intros schema. unfold descend.
    destruct (match fragment uri with
              | Some (String c f) =>
                  pointer_error_as_catalogue_error
                    (do ptr <- parse_uri_fragment (String c f); evaluate ptr s)
              | _ => Ok s
              end) as [t|e]; simpl; [|discriminate].
    destruct (is_JSONSchema t) eqn:Ht; simpl; [|discriminate].
    intros Heq. inversion Heq; subst. exact Ht.
  - exact Hload.
  - intros Hf Hnone.
    destruct (validate uri) eqn:Hv.
    + eexists. apply Hload; [exact Hf|].
      now rewrite (load_json_no_base json_loadf cat uri Hv Hnone).
    + eexists. apply Hload; [exact Hf|].
      now rewrite (load_json_invalid json_loadf cat uri Hv).
Qed.

Lemma get_schema_on_miss_witness :
  let uri := mkURI "https://example.com/missing" None true true in
  let cat := mkCatalogue [] ∅ in
  get_schema (fun _ => Ok (VBool true))
             (fun _ c _ _ _ => (Ok (BoolSchema true), c))
             uri None default cat
  = (Raise (CatalogueError "File not found for '{uri}'"), cat).
Proof.
  cbv zeta.
  pose proof (get_schema_on_miss
                (fun _ => Ok (VBool true))
                (fun _ c _ _ _ => (Ok (BoolSchema true), c))
                (mkURI "https://example.com/missing" None true true)
                None default (mkCatalogue [] ∅)) as H.
  cbv zeta in H. destruct (H eq_refl) as (_ & Hload & _).
  apply Hload; reflexivity.
Defined.

(** X8: a schema added with [add_schema] is what [get_schema] returns for
    that URI and session, from the cache alone; a schema added under
    ["__meta__"] is served to every session that has no entry of its own for
    the URI; an entry added under another session never changes what the
    exact-match step finds; and after [del_schema] the session's entry no
    longer counts. *)
Theorem add_schema_get_schema
  (json_loadf : Path -> result JSONValue)
  (JSONSchema_new : JSONValue -> Catalogue -> Session -> URI -> option URI ->
                    result Doc * Catalogue)
  (uri : URI) (schema : Doc) (metaschema_uri : option URI) (cat : Catalogue) :
  (forall session,
      let cat' := add_schema uri schema session cat in
      get_schema json_loadf JSONSchema_new uri metaschema_uri session cat'
      = (Ok schema, cat')) /\
  (forall session,
      cache_get cat session uri = None ->
      let cat' := add_schema uri schema __meta__ cat in
      get_schema json_loadf JSONSchema_new uri metaschema_uri session cat'
      = (Ok schema, cat')) /\
  (forall session other uri',
      other <> session -> other <> __meta__ ->
      first_cached (add_schema uri schema other cat) (try_caches session) uri'
      = first_cached cat (try_caches session) uri') /\
  (forall session,
      session <> __meta__ ->
      first_cached (del_schema uri session (add_schema uri schema session cat))
                   (try_caches session) uri
      = cache_get cat __meta__ uri).
Proof.
  split; [|split; [|split]].
  - intros session. cbv zeta. unfold get_schema.
    rewrite first_cached_try_caches, cache_get_add_schema.
    now rewrite decide_True.
  - intros session Hnone. cbv zeta. unfold get_schema.
    rewrite first_cached_try_caches, !cache_get_add_schema.
    rewrite (decide_True (P := (__meta__, uri) = (__meta__, uri))) by reflexivity.
    destruct (decide ((session, uri) = (__meta__, uri))); [reflexivity|].
    now rewrite Hnone.
  - intros session other uri' Hs Hm.
    rewrite !first_cached_try_caches, !cache_get_add_schema.
    rewrite !decide_False by congruence. reflexivity.
  - intros session Hm.
    rewrite first_cached_try_caches, !cache_get_del_schema, !cache_get_add_schema.
    rewrite decide_True by reflexivity.
    rewrite !decide_False by congruence. reflexivity.
Qed.

(** X9: a session releases its tag: once the scope is left, by a value or
    by an exception, [session()] can be entered with the same tag again.
    And a second [session()] with the tag of an open scope is refused once
    the body has cached a schema under the tag. *)
Theorem session_release_and_nesting :
  (forall (A : Type) (session : option Session) (uuid4 uuid4' : N)
          (body : Session -> Catalogue -> result A * Catalogue)
          (cat : Catalogue) (s : Session),
      session_enter session uuid4 cat = Ok s ->
      session_enter (Some s) uuid4' (with_session session uuid4 body cat).2 = Ok s) /\
  (forall (A : Type) (tag : Session) (uuid4 : N) (uri : URI) (schema : Doc)
          (inner : Session -> Catalogue -> result A * Catalogue) (cat : Catalogue),
      session_enter (Some tag) uuid4 cat = Ok tag ->
      with_session (Some tag) uuid4
        (fun s c => with_session (Some s) uuid4 inner (add_schema uri schema s c)) cat
      = (Raise (CatalogueError "session is already in use"),
         session_exit tag (add_schema uri schema tag cat))).
Proof.
  split.
  - intros A session uuid4 uuid4' body cat s He. unfold with_session. rewrite He.
    destruct (body s cat) as [r cat']. simpl. unfold session_enter. simpl.
    rewrite lookup_delete_eq. rewrite decide_False; [reflexivity|].
    intros [x Hx]. discriminate.
  - intros A tag uuid4 uri schema inner cat He.
    unfold with_session at 1. rewrite He.
    assert (Hin : session_enter (Some tag) uuid4 (add_schema uri schema tag cat)
                  = Raise (CatalogueError "session is already in use")).
    { unfold session_enter. rewrite decide_True; [reflexivity|].
      pose proof (cache_get_add_schema uri schema tag cat tag uri) as Hg.
      rewrite decide_True in Hg by reflexivity. unfold cache_get in Hg.
      destruct (_schema_cache (add_schema uri schema tag cat) !! tag); [eauto|discriminate]. }
    unfold with_session. now rewrite Hin.
Qed.

Lemma session_release_witness :
  session_enter (Some (Name "a")) 1
    (with_session (Some (Name "a")) 0
       (fun s c =>
          (Raise ValueError : result unit,
           add_schema (mkURI "https://example.com/s" None true true) (BoolSchema true) s c))
       (mkCatalogue [] ∅)).2
  = Ok (Name "a").
Proof.
  apply (proj1 session_release_and_nesting unit (Some (Name "a")) 0%N 1%N).
  reflexivity.
Defined.




(** X11: [get_vocabulary] returns what [create_vocabulary] registered under
    the URI, the latest registration winning, and raises [CatalogueError]
    for a URI that was never registered; [add_format_validators] adds or
    replaces the validators it is given and keeps the others, and
    [get_format_validator] raises [CatalogueError] for an attribute that has
    none.  Neither registry disturbs the other. *)
Theorem registries_round_trip
  (KeywordClass Vocabulary FormatValidator : Type)
  (Vocabulary_new : URI -> list KeywordClass -> Vocabulary)
  (reg : @Registries Vocabulary FormatValidator) :
  (forall uri kwclasses,
      get_vocabulary uri (create_vocabulary Vocabulary_new uri kwclasses reg)
      = Ok (Vocabulary_new uri kwclasses)) /\
  (forall uri kwclasses uri',
      uri' <> uri ->
      get_vocabulary uri' (create_vocabulary Vocabulary_new uri kwclasses reg)
      = get_vocabulary uri' reg) /\
  (forall uri,
      _vocabularies reg !! uri = None ->
      get_vocabulary uri reg
      = Raise (CatalogueError "Unrecognized vocabulary URI '{uri}'")) /\
  (forall validators format_attr,
      get_format_validator format_attr (add_format_validators validators reg)
      = match validators !! format_attr with
        | Some validator => Ok validator
        | None => get_format_validator format_attr reg
        end) /\
  (forall format_attr,
      _format_validators reg !! format_attr = None ->
      get_format_validator format_attr reg
      = Raise (CatalogueError "Unsupported format attribute '{format_attr}'")) /\
  (forall uri kwclasses format_attr,
      get_format_validator format_attr
        (create_vocabulary Vocabulary_new uri kwclasses reg)
      = get_format_validator format_attr reg) /\
  (forall validators uri,
      get_vocabulary uri (add_format_validators validators reg)
      = get_vocabulary uri reg).
Proof.
  repeat split.
  - intros uri kwclasses. unfold get_vocabulary, create_vocabulary. simpl.
    now rewrite lookup_insert_eq.
  - intros uri kwclasses uri' Hne. unfold get_vocabulary, create_vocabulary. simpl.
    now rewrite lookup_insert_ne by congruence.
  - intros uri H. unfold get_vocabulary. now rewrite H.
  - intros validators format_attr.
    unfold get_format_validator, add_format_validators. simpl.
    destruct (validators !! format_attr) as [v|] eqn:Hv.
    + now rewrite (lookup_union_Some_l _ _ _ _ Hv).
    + now rewrite lookup_union_r.
  - intros format_attr H. unfold get_format_validator. now rewrite H.
Qed.

Lemma initializers_of_unknown
      (Self : Type) (i1 i2 : Self -> result Self) (versions : list string) :
  (exists version, In version versions /\ version <> "2019-09" /\ version <> "2020-12") ->
  exists version,
    In version versions /\ version <> "2019-09" /\ version <> "2020-12" /\
    forall j1 j2 : Self -> result Self,
      initializers_of Self j1 j2 versions =
      Raise (CatalogueError ("Unrecognized version '" +:+ version +:+ "'")).
Proof.
  induction versions as [|v versions IH]; intros (w & Hin & H1 & H2); [destruct Hin|].
  destruct (String.eqb v "2019-09") eqn:E1.
  - apply String.eqb_eq in E1. subst v.
    destruct Hin as [<-|Hin]; [congruence|].
    destruct (IH (ex_intro _ w (conj Hin (conj H1 H2)))) as (u & Hu & Hu1 & Hu2 & Hr).
    exists u. repeat split; auto; [now right|].
    intros j1 j2. simpl. unfold _version_initializers. simpl. now rewrite Hr.
  - destruct (String.eqb v "2020-12") eqn:E2.
    + apply String.eqb_eq in E2. subst v.
      destruct Hin as [<-|Hin]; [congruence|].
      destruct (IH (ex_intro _ w (conj Hin (conj H1 H2)))) as (u & Hu & Hu1 & Hu2 & Hr).
      exists u. repeat split; auto; [now right|].
      intros j1 j2. simpl. unfold _version_initializers. simpl. now rewrite Hr.
    + apply String.eqb_neq in E1, E2.
      exists v. repeat split; auto; [now left|].
      intros j1 j2. simpl. unfold _version_initializers.
      apply String.eqb_neq in E1, E2. now rewrite E1, E2.
Qed.

(** X12: a catalogue is constructed from the versions ["2019-09"] and
    ["2020-12"] only: with any other version in the list the constructor
    raises a [CatalogueError] that names an unknown version, whatever the
    initializers would do (none has run), and the default catalogue stays
    the one it was.  With no version at all the new catalogue is the empty
    one; and the new catalogue becomes the default exactly when the
    construction succeeds with [default] set. *)
Theorem init_versions (Self : Type) (new_self : Self) :
  (forall versions default _default_catalogue,
      (exists version,
          In version versions /\ version <> "2019-09" /\ version <> "2020-12") ->
      exists version,
        In version versions /\ version <> "2019-09" /\ version <> "2020-12" /\
        forall i1 i2 : Self -> result Self,
          __init__ Self new_self i1 i2 versions default _default_catalogue =
          (Raise (CatalogueError ("Unrecognized version '" +:+ version +:+ "'")),
           _default_catalogue)) /\
  (forall (i1 i2 : Self -> result Self) default _default_catalogue,
      __init__ Self new_self i1 i2 [] default _default_catalogue =
      (Ok new_self, if default then Some new_self else _default_catalogue)) /\
  (forall (i1 i2 : Self -> result Self) versions default _default_catalogue,
      let out := __init__ Self new_self i1 i2 versions default _default_catalogue in
      get_default Self out.2 =
      match out.1 with
      | Ok self => if default then Some self else _default_catalogue
      | Raise _ => _default_catalogue
      end) /\
  (forall (i1 i2 : Self -> result Self) default _default_catalogue self,
      i1 new_self = Ok self ->
      __init__ Self new_self i1 i2 ["2019-09"] default _default_catalogue =
      (Ok self, if default then Some self else _default_catalogue)).
Proof.
  split; [|split; [|split]].
  - intros versions default dflt Hex.
    destruct (initializers_of_unknown Self (fun s => Ok s) (fun s => Ok s) versions Hex)
      as (v & Hin & H1 & H2 & Hr).
    exists v. repeat split; auto. intros i1 i2. unfold __init__. now rewrite Hr.
  - reflexivity.
  - intros i1 i2 versions default dflt. cbv zeta. unfold __init__, get_default.
    destruct (initializers_of Self i1 i2 versions) as [inits|e]; [|reflexivity].
    destruct (run_initializers Self inits new_self); reflexivity.
  - intros i1 i2 default dflt self H. unfold __init__. simpl. now rewrite H.
Qed.

Lemma init_versions_witness :
  exists version,
    In version ["2019-09"; "2021-01"] /\
    forall i1 i2 : nat -> result nat,
      __init__ nat 0%nat i1 i2 ["2019-09"; "2021-01"] true (Some 5%nat) =
      (Raise (CatalogueError ("Unrecognized version '" +:+ version +:+ "'")), Some 5%nat).
Proof.
  destruct (proj1 (init_versions nat 0%nat) ["2019-09"; "2021-01"] true (Some 5%nat))
    as (v & Hin & _ & _ & H).
  - exists "2021-01". split; [right; now left|]. split; discriminate.
  - exists v. split; assumption.
Defined.

(** X13: [maxContains] and [minContains] evaluated, in the order of their
    dependencies, beside the scope of [contains]: the three scopes are all
    valid at the end exactly when the count of matching elements (the
    ["contains"] annotation, 0 without one) is at least the minimum and the
    annotation, if there is one, is at most the maximum, whether or not
    [contains] itself had failed. *)
Theorem contains_bounds_window
  (min_limit max_limit : Number) (instance : JSON) (contains : Scope) :
  let count := validation.MinContainsKeyword.contains_count contains in
  frame_valid (validation.evaluate_contains_bounds min_limit max_limit instance contains)
  = true <->
  (num_value min_limit <= num_value count)%Q /\
  (forall a, annotations contains !! "contains" = Some a ->
             (num_value (ann_value a) <= num_value max_limit)%Q).
Proof.
  cbv zeta. unfold validation.evaluate_contains_bounds.
  set (fr0 := {| scope := new_scope; siblings := {["contains" := contains]} |}).
  set (max_ok := match annotations contains !! "contains" with
                 | Some a => negb (Numbers.gtb (ann_value a) max_limit)
                 | None => true
                 end).
  assert (Hmax_sib :
            siblings (validation.MaxContainsKeyword.evaluate max_limit instance fr0)
            = {["contains" := contains]}).
  { unfold validation.MaxContainsKeyword.evaluate, sibling, fr0. simpl.
    rewrite lookup_singleton_eq.
    destruct (annotations contains !! "contains") as [a|]; [|reflexivity].
    destruct (Numbers.gtb (ann_value a) max_limit); reflexivity. }
  assert (Hmax_valid :
            valid (scope (validation.MaxContainsKeyword.evaluate max_limit instance fr0))
            = max_ok).
  { unfold validation.MaxContainsKeyword.evaluate, sibling, fr0, max_ok. simpl.
    rewrite lookup_singleton_eq.
    destruct (annotations contains !! "contains") as [a|]; [|reflexivity].
    destruct (Numbers.gtb (ann_value a) max_limit); reflexivity. }
  rewrite Hmax_sib.
  set (smax := scope (validation.MaxContainsKeyword.evaluate max_limit instance fr0)) in *.
  assert (Hmax_iff : max_ok = true <->
                     forall a, annotations contains !! "contains" = Some a ->
                               (num_value (ann_value a) <= num_value max_limit)%Q).
  { unfold max_ok. destruct (annotations contains !! "contains") as [a|].
    - rewrite negb_true_iff, gtb_false_value. split.
      + intros H a' Heq. inversion Heq; subst. exact H.
      + intros H. now apply H.
    - split; [intros _ a Ha; discriminate | reflexivity]. }
  rewrite <- Hmax_iff, <- geb_value.
  unfold validation.MinContainsKeyword.evaluate, sibling. simpl.
  rewrite lookup_insert_ne by discriminate. rewrite lookup_singleton_eq.
  rewrite lookup_insert_eq, Hmax_valid.
  set (count := validation.MinContainsKeyword.contains_count contains).
  destruct (Numbers.geb count min_limit) eqn:Hmin; simpl.
  - destruct (valid contains) eqn:Hc; simpl.
    + rewrite frame_valid_spec. simpl. split.
      * intros [_ H]. split; [reflexivity|].
        rewrite <- Hmax_valid. apply (H "maxContains"). apply lookup_insert_eq.
      * intros [_ Hm]. split; [reflexivity|]. intros k s Hk.
        destruct (decide (k = "maxContains")) as [->|Hne].
        -- rewrite lookup_insert_eq in Hk. inversion Hk; subst. congruence.
        -- rewrite lookup_insert_ne in Hk by congruence.
           apply lookup_singleton_Some in Hk as [_ <-]. exact Hc.
    + destruct max_ok eqn:Hm; simpl.
      * split; [auto|]. intros _. apply frame_valid_spec. simpl.
        split; [reflexivity|]. intros k s Hk.
        destruct (decide (k = "contains")) as [->|Hne].
        -- rewrite lookup_insert_eq in Hk. inversion Hk; subst. reflexivity.
        -- rewrite lookup_insert_ne in Hk by congruence.
           destruct (decide (k = "maxContains")) as [->|Hne'].
           ++ rewrite lookup_insert_eq in Hk. inversion Hk; subst. congruence.
           ++ rewrite lookup_insert_ne in Hk by congruence.
              apply lookup_singleton_Some in Hk as [Hk _]. congruence.
      * split; [|intros [_ H]; discriminate].
        rewrite frame_valid_spec. simpl. intros [_ H]. exfalso.
        specialize (H "maxContains" smax (lookup_insert_eq _ _ _)). congruence.
  - split; [|intros [H _]; discriminate].
    rewrite frame_valid_spec. intros [Hv _]. exfalso.
    change (valid (fail instance
                     (Msg "The array has too few elements matching the 'contains' subschema (minimum {self.json})" [VNum min_limit])
                     new_scope) = true) in Hv.
    rewrite fail_invalid in Hv. discriminate.
Qed.
